(** * board: a shallow embedding of [src/board/board.go]

    The Go package [board] keeps a flow-puzzle board: a grid of ints and a
    list of flows (point sequences).  This file embeds its functions as
    Rocq functions and proves properties of them.

    Conventions of the embedding.
    - Go's [int] is the 64-bit two's complement integer of the usual
      targets: a [Z] with the wrap-around of [+], [-] and [*] written out.
    - A run-time panic (index out of range, slice bounds out of range,
      [make] with a length or capacity out of range) ends the program:
      functions return a [result], either [Ret v] or [Panic p].
    - [make] follows [runtime.makeslice] of the 64-bit targets: it panics
      for a negative length and for a size above [maxAlloc], 2^48 bytes.
      A request within that limit is served: a process that runs out of
      memory is stopped by a fatal error of the runtime, which is not a
      behaviour of the package and is not modelled.
    - A Go [error] value is an [option error]; [None] is [nil].
    - [*Board] is passed explicitly: a method returns the board it leaves
      behind.  The mutex is not modelled (one caller at a time), nor are
      the lines written to standard output.
    - [grid] and [flows] are held by value.  The only slices that share a
      backing array are the locals [c] and [updatedC] of [ColorCell]; they
      are modelled on an explicit store of backing arrays. *)

From Stdlib Require Import ZArith Lia Ascii String DecimalString DecimalPos.
From stdpp Require Import base list strings.

Open Scope Z_scope.

(** * Part I: the embedding *)

(** ** Results and panics *)

Inductive panic : Type :=
| IndexOutOfRange
| SliceBoundsOutOfRange
| MakeSliceOutOfRange.

Inductive result (A : Type) : Type :=
| Ret (a : A)
| Panic (p : panic).

Arguments Ret {A} a.
Arguments Panic {A} p.

Definition bind {A B : Type} (m : result A) (k : A -> result B) : result B :=
  match m with
  | Ret a => k a
  | Panic p => Panic p
  end.

Notation "x <- m ;; k" := (bind m (fun x => k))
  (at level 100, m at next level, right associativity).

(** ** Go's [int] *)

Module Int.

Definition min_int : Z := - 2 ^ 63.
Definition max_int : Z := 2 ^ 63 - 1.

(** The value an [int] holds after an operation whose exact result is [z]. *)
Definition wrap (z : Z) : Z := (z + 2 ^ 63) mod 2 ^ 64 - 2 ^ 63.

Definition add (a b : Z) : Z := wrap (a + b).
Definition sub (a b : Z) : Z := wrap (a - b).
Definition mul (a b : Z) : Z := wrap (a * b).

Definition in_range (z : Z) : Prop := min_int <= z <= max_int.

End Int.

(** ** Indexing with a Go [int]

    [l[i]] and [l[i] = x] panic out of range. *)

Definition in_bounds {A : Type} (l : list A) (i : Z) : bool :=
  (0 <=? i) && (i <? Z.of_nat (length l)).

Definition index {A : Type} (l : list A) (i : Z) : result A :=
  if in_bounds l i then
    match l !! Z.to_nat i with
    | Some x => Ret x
    | None => Panic IndexOutOfRange
    end
  else Panic IndexOutOfRange.

Definition set_index {A : Type} (l : list A) (i : Z) (x : A) : result (list A) :=
  if in_bounds l i then Ret (<[Z.to_nat i := x]> l) else Panic IndexOutOfRange.

(** [for i := 0; i < hi; i++ { body }] where the body either returns a
    value from the enclosing function ([Some v]) or falls through
    ([None]).  The counter stays below [hi], so [i++] never wraps. *)
Fixpoint for_loop {R : Type} (todo : nat) (i : Z) (body : Z -> result (option R))
  : result (option R) :=
  match todo with
  | O => Ret None
  | S todo' =>
      r <- body i ;;
      match r with
      | Some v => Ret (Some v)
      | None => for_loop todo' (i + 1) body
      end
  end.

Definition for_to {R : Type} (hi : Z) (body : Z -> result (option R)) : result (option R) :=
  for_loop (Z.to_nat hi) 0 body.

(** ** The Go library functions the package calls

    [strings.Trim], [strings.Split], [strconv.Atoi] and
    [bufio.Reader.ReadString] belong to Go's standard library; they are
    modelled from their documented behaviour, on byte strings. *)

Definition LF : ascii := "010"%char.
Definition nl : string := String LF EmptyString.

Module strings.

Fixpoint contains_byte (cutset : string) (a : ascii) : bool :=
  match cutset with
  | EmptyString => false
  | String b cutset' => Ascii.eqb a b || contains_byte cutset' a
  end.

Fixpoint TrimLeft (s cutset : string) : string :=
  match s with
  | EmptyString => EmptyString
  | String a s' => if contains_byte cutset a then TrimLeft s' cutset else s
  end.

Fixpoint TrimRight (s cutset : string) : string :=
  match s with
  | EmptyString => EmptyString
  | String a s' =>
      match TrimRight s' cutset with
      | EmptyString => if contains_byte cutset a then EmptyString else String a EmptyString
      | t => String a t
      end
  end.

(** [strings.Trim(s, cutset)]: [s] without the leading and trailing bytes
    that occur in [cutset]. *)
Definition Trim (s cutset : string) : string :=
  TrimRight (TrimLeft s cutset) cutset.

(** [strings.Split(s, sep)] for a separator of one byte, the only kind the
    package uses: the pieces of [s] between the occurrences of [sep], one
    more than there are occurrences. *)
Fixpoint Split (s : string) (sep : ascii) : list string :=
  match s with
  | EmptyString => [EmptyString]
  | String a s' =>
      if Ascii.eqb a sep then EmptyString :: Split s' sep
      else match Split s' sep with
           | piece :: pieces => String a piece :: pieces
           | [] => [String a EmptyString]
           end
  end.

End strings.

Module strconv.

Inductive NumError : Type := ErrSyntax | ErrRange.

Definition digit (a : ascii) : option Z :=
  let n := Z.of_nat (nat_of_ascii a) in
  if (48 <=? n) && (n <=? 57) then Some (n - 48) else None.

Fixpoint digits (s : string) (acc : Z) : option Z :=
  match s with
  | EmptyString => Some acc
  | String a s' =>
      match digit a with
      | Some d => digits s' (acc * 10 + d)
      | None => None
      end
  end.

(** [strconv.Atoi(s)]: an optional sign and one or more decimal digits.
    A syntax error gives 0; a value that does not fit an [int] gives
    the nearest bound and [ErrRange]. *)
Definition Atoi (s : string) : Z * option NumError :=
  match s with
  | EmptyString => (0, Some ErrSyntax)
  | String a s' =>
      let neg := Ascii.eqb a "-" in
      let body := if Ascii.eqb a "+" || neg then s' else s in
      match body with
      | EmptyString => (0, Some ErrSyntax)
      | _ =>
          match digits body 0 with
          | None => (0, Some ErrSyntax)
          | Some un =>
              if negb neg && (Int.max_int <? un) then (Int.max_int, Some ErrRange)
              else if neg && (- Int.min_int <? un) then (Int.min_int, Some ErrRange)
              else (if neg then - un else un, None)
          end
      end
  end.

End strconv.

Module bufio.

(** What ends a stream: [io.EOF] or another read error. *)
Inductive io_error : Type := EOF | ReadFailure.

(** A reader over the bytes the stream delivers before it ends, and the
    error that ends it. *)
Record Reader : Type := mkReader { pending : string; ending : io_error }.

(** [r.ReadString(delim)]: the bytes up to and including the first
    [delim]; without a [delim], all remaining bytes and the error. *)
Fixpoint read_until (s : string) (delim : ascii) : string * option string :=
  match s with
  | EmptyString => (EmptyString, None)
  | String a s' =>
      if Ascii.eqb a delim then (String a EmptyString, Some s')
      else let '(line, rest) := read_until s' delim in (String a line, rest)
  end.

Definition ReadString (r : Reader) (delim : ascii) : string * option io_error * Reader :=
  match read_until (pending r) delim with
  | (line, Some rest) => (line, None, mkReader rest (ending r))
  | (line, None) => (line, Some (ending r), mkReader EmptyString (ending r))
  end.

End bufio.

(** ** Points, flows and the board *)

(** [type Point [2]int]: [p[0]] is the first component, [p[1]] the second. *)
Abbreviation Point := (Z * Z)%type.

(** [type Color []Point] *)
Abbreviation Color := (list Point).

(** [type Board struct { grid [][]int; flows []Color; sync.RWMutex }] *)
Record Board : Type := mkBoard { grid : list (list Z); flows : list Color }.

(** The [error] values the package builds. *)
Inductive error : Type :=
| ErrReadingInput (e : bufio.io_error)  (* "error reading input %s" *)
| BadSizeFormat                         (* "Bad format, first line should indicate the size ..." *)
| BadLineFormat                         (* "Bad format, lines should indicate the positions ..." *)
| ColorIndexOutOfRange                  (* "color index out of range" *)
| XOutOfRange                           (* "X out of range" *)
| YOutOfRange                           (* "Y out of range" *)
| CellOccupied                          (* "Cell already occupied" *)
| NotAjacent (c : Color).               (* "Cells are not ajacent: %v" *)

Definition is_err {E : Type} (e : option E) : bool :=
  match e with Some _ => true | None => false end.

(** [func (b *Board) Lines() int] *)
Definition Lines (b : Board) : Z := Z.of_nat (length (grid b)).

(** [func (b *Board) Cols() int]: [len(b.grid[0])] *)
Definition Cols (b : Board) : result Z :=
  row <- index (grid b) 0 ;;
  Ret (Z.of_nat (length row)).

(** [func (b *Board) Get(line, col int) int]: [b.grid[line][col]] *)
Definition Get (b : Board) (line col : Z) : result Z :=
  row <- index (grid b) line ;;
  index row col.

(** [b.grid[line][col] = v] *)
Definition grid_set (g : list (list Z)) (line col v : Z) : result (list (list Z)) :=
  row <- index g line ;;
  row' <- set_index row col v ;;
  set_index g line row'.

(** ** Adjacency *)

(** [func AreAjacent(point, nextPoint Point) bool] *)
Definition AreAjacent (point nextPoint : Point) : bool :=
  let dx := Int.sub (fst point) (fst nextPoint) in
  let dy := Int.sub (snd point) (snd nextPoint) in
  if (1 <? Int.mul dx dx) || (1 <? Int.mul dy dy)
     || negb (Int.add (Int.mul dx dx) (Int.mul dy dy) =? 1)
  then false
  else true.

(** [func AreAllAjacent(c Color) bool]: the loop compares every point but
    the last with its successor and returns at the first pair that is not
    adjacent. *)
Fixpoint AreAllAjacent (c : Color) : bool :=
  match c with
  | point :: (nextPoint :: _) as rest =>
      if negb (AreAjacent point nextPoint) then false else AreAllAjacent rest
  | _ => true
  end.

(** ** Parsing: [getSize], [insertPoints], [New] *)

(** [func getSize(s string) (int, int, error)] *)
Definition getSize (s : string) : Z * Z * option error :=
  let split := strings.Split (strings.Trim s nl) "," in
  match split with
  | [s0; s1] =>
      let '(lines, err) := strconv.Atoi s0 in
      let '(cols, err2) := strconv.Atoi s1 in
      if is_err err || is_err err2 then (0, 0, Some BadSizeFormat)
      else (lines, cols, None)
  | _ => (0, 0, Some BadSizeFormat)   (* len(split) != 2 *)
  end.

(** The condition of the bounds check in [insertPoints], with Go's
    left-to-right short circuit: [len(board.grid[0])] is only evaluated,
    and can only panic, when every earlier disjunct is false. *)
Definition out_of_board (board : Board) (err err2 : option strconv.NumError) (i j : Z)
  : result bool :=
  if is_err err || is_err err2 || (i <? 0) || (Z.of_nat (length (grid board)) <? i) || (j <? 0)
  then Ret true
  else row0 <- index (grid board) 0 ;; Ret (Z.of_nat (length row0) <? j).

(** The body of [for _, point := range points] in [insertPoints].  The
    board is updated in place, so the cells written for earlier points stay
    written when a later point is refused. *)
Fixpoint insertPoints_range (board : Board) (index : Z) (points : list string) (c : Color)
  : result (Board * Color * option error) :=
  match points with
  | [] => Ret (board, c, None)
  | point :: points' =>
      match strings.Split point "," with
      | [s0; s1] =>
          let '(i, err) := strconv.Atoi s0 in
          let '(j, err2) := strconv.Atoi s1 in
          bad <- out_of_board board err err2 i j ;;
          if bad then Ret (board, c, Some BadLineFormat)
          else
            g <- grid_set (grid board) i j index ;;
            insertPoints_range (mkBoard g (flows board)) index points' (c ++ [(i, j)])
      | _ => Ret (board, c, Some BadLineFormat)   (* len(coords) != 2 *)
      end
  end.

(** [func insertPoints(board *Board, line string, index int) error] *)
Definition insertPoints (board : Board) (line : string) (index : Z)
  : result (Board * option error) :=
  if String.eqb line EmptyString then Ret (board, None)
  else
    let points := strings.Split (strings.Trim line nl) " " in
    if negb (Nat.eqb (length points) 2) then Ret (board, Some BadLineFormat)
    else
      r <- insertPoints_range board index points [] ;;
      match r with
      | (board', c, None) => Ret (mkBoard (grid board') (flows board' ++ [c]), None)
      | (board', _, Some e) => Ret (board', Some e)
      end.

(** [make] of a slice with a length that is not a constant goes through
    [runtime.makeslice], which multiplies the length by the size of an
    element and panics ("makeslice: len out of range") when the length is
    negative or the product exceeds [maxAlloc]. *)
Module runtime.

(** [maxAlloc] of the 64-bit targets: [1 << heapAddrBits], with 48
    address bits. *)
Definition maxAlloc : Z := 2 ^ 48.

(** [makeslice] accepts [len] elements of [size] bytes each. *)
Definition makeslice_ok (size len : Z) : bool :=
  (0 <=? len) && (size * len <=? maxAlloc).

End runtime.

(** [make([][]int, lines)]: [lines] nil rows.  An element is a slice
    header of three words, 24 bytes. *)
Definition make_grid (lines : Z) : result (list (list Z)) :=
  if runtime.makeslice_ok 24 lines then Ret (replicate (Z.to_nat lines) [])
  else Panic MakeSliceOutOfRange.

(** [make([]int, cols)]: [cols] zero cells of 8 bytes. *)
Definition make_row (cols : Z) : result (list Z) :=
  if runtime.makeslice_ok 8 cols then Ret (replicate (Z.to_nat cols) 0)
  else Panic MakeSliceOutOfRange.

(** [for i := 0; i < cols; i++ { board.grid[i] = make([]int, cols) }]:
    [todo] iterations are left, the next one is for row [i].  The row is
    made before [board.grid[i]] is indexed for the assignment. *)
Fixpoint New_rows (todo : nat) (i cols : Z) (g : list (list Z)) : result (list (list Z)) :=
  match todo with
  | O => Ret g
  | S todo' =>
      row <- make_row cols ;;
      g' <- set_index g i row ;;
      New_rows todo' (i + 1) cols g'
  end.

(** The loop of [New], which starts with an empty [line] and reads the
    next one with [r.ReadString] after every turn.
    [err] is the error of the last read, if any.  The result is the board
    and the value of [err] after the loop, which is the error of the last
    [insertPoints].  Every turn but the last two consumes a byte of the
    stream, so [fuel] two above the stream's length is never used up
    (lemma [New_loop_terminates]). *)
Fixpoint New_loop (fuel : nat) (r : bufio.Reader) (board : Board) (index : Z)
    (line : string) (err : option bufio.io_error) : option (result (Board * option error)) :=
  match fuel with
  | O => None
  | S fuel' =>
      match insertPoints board line index with
      | Panic p => Some (Panic p)
      | Ret (board', readErr) =>
          if is_err err || is_err readErr then Some (Ret (board', readErr))
          else
            let '(line', err', r') := bufio.ReadString r LF in
            New_loop fuel' r' board' (Int.add index 1) line' err'
      end
  end.

(** [func New(txt io.ReadCloser)], returning a [*Board] and an [error] *)
Definition New (txt : bufio.Reader) : result (Board * option error) :=
  let board := mkBoard [] [] in
  let '(sizeString, err, r) := bufio.ReadString txt LF in
  match err with
  | Some e => Ret (board, Some (ErrReadingInput e))
  | None =>
      let '(lines, cols, err) := getSize sizeString in
      match err with
      | Some e => Ret (board, Some e)
      | None =>
          g <- make_grid lines ;;
          g <- New_rows (Z.to_nat cols) 0 cols g ;;
          match New_loop (2 + String.length (bufio.pending r)) r
                         (mkBoard g []) 0 EmptyString None with
          | Some res => p <- res ;; Ret (fst p, None)   (* return board, nil *)
          | None => Ret (mkBoard g [], None)            (* not reached *)
          end
      end
  end.

(** A stream holding the bytes of [s] and then [io.EOF]. *)
Definition stream (s : string) : bufio.Reader := bufio.mkReader s bufio.EOF.

(** ** Slices of points over shared backing arrays

    [ColorCell] builds its new flow in a fresh slice [c] and reslices and
    appends to it; the slices it derives from [c] share [c]'s backing
    array.  A [store] holds the backing arrays, a [slice] is a window on
    one of them that starts at its first element. *)

Module slices.

Definition store : Type := list (list Point).

Record slice : Type := Slice { array : nat; len : nat }.

Definition backing (m : store) (s : slice) : list Point := default [] (m !! array s).

Definition cap (m : store) (s : slice) : nat := length (backing m s).

(** The elements of [s], in order. *)
Definition elems (m : store) (s : slice) : list Point := take (len s) (backing m s).

(** [make([]Point, n, c)]: a new backing array of [c] zero points. *)
Definition make (m : store) (n c : Z) : result (store * slice) :=
  if (n <? 0) || (c <? n) then Panic MakeSliceOutOfRange
  else Ret (m ++ [replicate (Z.to_nat c) (0, 0)], Slice (length m) (Z.to_nat n)).

(** [s[i]] *)
Definition get (m : store) (s : slice) (i : Z) : result Point := index (elems m s) i.

(** [s[i] = p] *)
Definition set (m : store) (s : slice) (i : Z) (p : Point) : result store :=
  if (0 <=? i) && (i <? Z.of_nat (len s))
  then Ret (<[array s := <[Z.to_nat i := p]> (backing m s)]> m)
  else Panic IndexOutOfRange.

(** [s[:hi]], legal up to the capacity of [s]. *)
Definition upto (m : store) (s : slice) (hi : Z) : result slice :=
  if (0 <=? hi) && (hi <=? Z.of_nat (cap m s)) then Ret (Slice (array s) (Z.to_nat hi))
  else Panic SliceBoundsOutOfRange.

(** [append(s, ps...)]: in place when the capacity suffices, which
    overwrites what the backing array held after [s]; into a new array
    otherwise (Go then picks a capacity of its own, at least the length). *)
Definition append (m : store) (s : slice) (ps : list Point) : store * slice :=
  let n := (len s + length ps)%nat in
  if (n <=? cap m s)%nat
  then (<[array s := elems m s ++ ps ++ drop n (backing m s)]> m, Slice (array s) n)
  else (m ++ [elems m s ++ ps], Slice (length m) n).

End slices.

(** ** [ColorCell] *)

(** [for i, p := range b.flows[colorIndex] { c[i] = p }] *)
Fixpoint copy_points (m : slices.store) (c : slices.slice) (i : Z) (ps : list Point)
  : result slices.store :=
  match ps with
  | [] => Ret m
  | p :: ps' => m' <- slices.set m c i p ;; copy_points m' c (i + 1) ps'
  end.

(** [func (b *Board) ColorCell(colorIndex, line, col int) error].
    The arguments of [append] are evaluated before the call: the reslice
    [c[:len(c)-1]] first, then the last element [c[len(c)-1]]. *)
Definition ColorCell (b : Board) (colorIndex line col : Z) : result (Board * option error) :=
  if (colorIndex <? 0) || (Z.of_nat (length (flows b)) <=? colorIndex)
  then Ret (b, Some ColorIndexOutOfRange)
  else if (line <? 0) || (Lines b <=? line)
  then Ret (b, Some XOutOfRange)
  else
    cols <- Cols b ;;
    if (col <? 0) || (cols <=? col)
    then Ret (b, Some YOutOfRange)
    else
      cell <- Get b line col ;;
      if negb (cell =? 0)
      then Ret (b, Some CellOccupied)
      else
        flow <- index (flows b) colorIndex ;;
        let sliceLen := Z.of_nat (length flow) in
        mc <- slices.make [] sliceLen (Int.add sliceLen 1) ;;
        let c := snd mc in
        m <- copy_points (fst mc) c 0 flow ;;
        let len_c := Z.of_nat (slices.len c) in
        front <- slices.upto m c (Int.sub len_c 1) ;;
        tail <- slices.get m c (Int.sub len_c 1) ;;
        let '(m, updatedC) := slices.append m front [(line, col); tail] in
        checked <- slices.upto m updatedC len_c ;;
        if negb (AreAllAjacent (slices.elems m checked))
        then Ret (b, Some (NotAjacent (slices.elems m checked)))
        else
          g <- grid_set (grid b) line col (Int.add colorIndex 1) ;;
          fl <- set_index (flows b) colorIndex (slices.elems m updatedC) ;;
          Ret (mkBoard g fl, None).

(** What [ColorCell] computes, with the slices of its body read as the
    lists they hold (lemma [ColorCell_value_eq]): the list that is tested
    is the flow without its last point followed by the new point, the
    list that is stored is the same followed by the old last point. *)
Definition ColorCell_value (b : Board) (colorIndex line col : Z)
  : result (Board * option error) :=
  if (colorIndex <? 0) || (Z.of_nat (length (flows b)) <=? colorIndex)
  then Ret (b, Some ColorIndexOutOfRange)
  else if (line <? 0) || (Lines b <=? line)
  then Ret (b, Some XOutOfRange)
  else
    cols <- Cols b ;;
    if (col <? 0) || (cols <=? col)
    then Ret (b, Some YOutOfRange)
    else
      cell <- Get b line col ;;
      if negb (cell =? 0)
      then Ret (b, Some CellOccupied)
      else
        flow <- index (flows b) colorIndex ;;
        if Int.max_int <=? Z.of_nat (length flow)
        then Panic MakeSliceOutOfRange
        else
          match last flow with
          | None => Panic SliceBoundsOutOfRange
          | Some tail =>
              let checked := removelast flow ++ [(line, col)] in
              if negb (AreAllAjacent checked)
              then Ret (b, Some (NotAjacent checked))
              else
                g <- grid_set (grid b) line col (Int.add colorIndex 1) ;;
                Ret (mkBoard g (<[Z.to_nat colorIndex := checked ++ [tail]]> (flows b)), None)
          end.

(** The sequence the specification describes: [flow] with [p] inserted
    immediately before its last point. *)
Definition spliced (flow : Color) (p : Point) : Color :=
  match last flow with
  | Some tail => removelast flow ++ [p; tail]
  | None => [p]
  end.

(** ** [Solved] *)

(** [for _, c := range b.flows { if !AreAllAjacent(c) { return false } }] *)
Fixpoint Solved_flows (fl : list Color) : bool :=
  match fl with
  | [] => true
  | c :: fl' => if negb (AreAllAjacent c) then false else Solved_flows fl'
  end.

(** [func (b *Board) Solved() bool] *)
Definition Solved (b : Board) : result bool :=
  r <- for_to (Lines b) (fun i =>
         cols <- Cols b ;;
         for_to cols (fun j =>
           cell <- Get b i j ;;
           if cell =? 0 then Ret (Some false) else Ret None)) ;;
  match r with
  | Some v => Ret v
  | None => Ret (Solved_flows (flows b))
  end.

(** ** Boards a program can hold

    A board comes from [New] and changes through [ColorCell] only. *)
Inductive reachable : Board -> Prop :=
| reachable_New (txt : bufio.Reader) (b : Board) (e : option error) :
    New txt = Ret (b, e) -> reachable b
| reachable_ColorCell (b b' : Board) (k line col : Z) (e : option error) :
    reachable b -> ColorCell b k line col = Ret (b', e) -> reachable b'.

(** ** The grid as the data model has it *)

(** All rows have the same length: the grid is a matrix. *)
Definition rectangular (g : list (list Z)) : Prop :=
  exists cols : nat, Forall (fun row => length row = cols) g.

(** No cell holds 0. *)
Definition grid_full (g : list (list Z)) : bool :=
  forallb (forallb (fun cell => negb (cell =? 0))) g.

(** ** Invariants of the flow list *)

(** Every flow has exactly two points, as after [New]. *)
Definition two_points (fl : list Color) : Prop := Forall (fun flow => length flow = 2%nat) fl.

(** Every flow has at least two points. *)
Definition at_least_two (fl : list Color) : Prop :=
  Forall (fun flow => (2 <= length flow)%nat) fl.

(** ** Sample levels *)

(** A 3x3 board with one flow from (0,0) to (2,2). *)
Definition level33 : string := "3,3" +:+ nl +:+ "0,0 2,2" +:+ nl.

Definition board33 : Board :=
  mkBoard [[1; 0; 0]; [0; 0; 0]; [0; 0; 1]] [[(0, 0); (2, 2)]].

(** The 2x2 level of the specification's round-trip scenario. *)
Definition level22 : string := "2,2" +:+ nl +:+ "0,0 1,1" +:+ nl +:+ "0,1 1,0" +:+ nl.

Definition board22 : Board :=
  mkBoard [[1; 2]; [2; 1]] [[(0, 0); (1, 1)]; [(0, 1); (1, 0)]].

(** An empty 2x2 board, as [New] has it before the first flow line. *)
Definition empty22 : Board := mkBoard [[0; 0]; [0; 0]] [].

(** ** [AjacentToAny] *)

(** [func AjacentToAny(point Point, c Color) bool] *)
Fixpoint AjacentToAny (point : Point) (c : Color) : bool :=
  match c with
  | [] => false
  | p :: c' => if AreAjacent p point then true else AjacentToAny point c'
  end.

(** ** [Clone] *)

(** [for k := range b.grid[j] { newBoard.grid[j][k] = b.grid[j][k] }]:
    [cells] are the cells of [b.grid[j]] from column [k] on. *)
Fixpoint Clone_cells (g : list (list Z)) (j k : Z) (cells : list Z) : result (list (list Z)) :=
  match cells with
  | [] => Ret g
  | v :: cells' => g' <- grid_set g j k v ;; Clone_cells g' j (k + 1) cells'
  end.

(** [for j := range b.grid { ... }]: [rows] are the rows of [b.grid] from
    row [j] on. *)
Fixpoint Clone_rows (g : list (list Z)) (j : Z) (rows : list (list Z)) : result (list (list Z)) :=
  match rows with
  | [] => Ret g
  | row :: rows' => g' <- Clone_cells g j 0 row ;; Clone_rows g' (j + 1) rows'
  end.

(** [func (b *Board) Clone() *Board].  The new grid has [b.Lines()] rows
    of [b.Cols()] zero cells, then receives the cells of [b.grid]; the new
    flow list receives the flows one by one. *)
Definition Clone (b : Board) : result Board :=
  let lines := Lines b in
  cols <- Cols b ;;
  let g0 := replicate (Z.to_nat lines) (replicate (Z.to_nat cols) 0) in
  g <- Clone_rows g0 0 (grid b) ;;
  Ret (mkBoard g (fold_left (fun fl flow => fl ++ [flow]) (flows b) [])).

(** ** Free cells *)

(** The number of cells of the grid that hold 0. *)
Definition free_cells (g : list (list Z)) : nat :=
  length (List.filter (fun cell => cell =? 0) (concat g)).

(** ** Points on the grid *)

(** [p] names a cell of the grid: [b.grid[p[0]][p[1]]] can be read. *)
Definition on_grid (b : Board) (p : Point) : Prop :=
  exists v, Get b (fst p) (snd p) = Ret v.

(** [row], followed by zeros up to [cols] cells. *)
Definition pad_row (cols : nat) (row : list Z) : list Z :=
  row ++ replicate (cols - length row) 0.

(** ** Writing numbers and levels

    [fmt]'s verb [%d] writes an [int] in decimal, with a minus sign when
    it is negative. *)

Definition Itoa (z : Z) : string := NilZero.string_of_int (Z.to_int z).

(** The header line of a level: ["<lines>,<cols>"] and a newline. *)
Definition header_line (lines cols : Z) : string :=
  Itoa lines +:+ "," +:+ Itoa cols +:+ nl.

(** A point as a flow line has it: ["<row>,<col>"]. *)
Definition point_text (p : Point) : string := Itoa (fst p) +:+ "," +:+ Itoa (snd p).

(** The flow line of two points: ["<r1>,<c1> <r2>,<c2>"] and a newline. *)
Definition flow_line (p q : Point) : string :=
  point_text p +:+ " " +:+ point_text q +:+ nl.

(** The text of a level with [lines] lines and [cols] columns: the header
    line and one flow line for every pair of end points. *)
Definition level_text (lines cols : Z) (ends : list (Point * Point)) : string :=
  header_line lines cols +:+ String.concat EmptyString (map (fun pq => flow_line (fst pq) (snd pq)) ends).







(** ** [ColorsString] *)

(** The loop [for i, point := range c] of [ColorsString]: [points] are
    the points of [c] from position [i] on, [s] is the text so far. *)
Fixpoint ColorsString_points (c : Color) (i : Z) (points : list Point) (s : string) : string :=
  match points with
  | [] => s
  | point :: points' =>
      let at_last := i =? Z.of_nat (length c) - 1 in
      let s := if at_last && negb (AreAllAjacent c) then s +:+ "[???]->" else s in
      let s := s +:+ ("(" +:+ Itoa (fst point) +:+ "," +:+ Itoa (snd point) +:+ ")") in
      let s := if negb at_last then s +:+ "->" else s in
      ColorsString_points c (i + 1) points' s
  end.

(** The loop [for _, c := range b.flows] of [ColorsString]. *)
Fixpoint ColorsString_flows (fl : list Color) (s : string) : string :=
  match fl with
  | [] => s
  | c :: fl' => ColorsString_flows fl' (ColorsString_points c 0 c s +:+ nl)
  end.

(** [func (b *Board) ColorsString() string] *)
Definition ColorsString (b : Board) : string :=
  ColorsString_flows (flows b) EmptyString.

(** * Part II: properties *)

(** ** The library functions on sample inputs *)

Example Trim_line : strings.Trim ("0,0 1,1" +:+ nl) nl = "0,0 1,1"%string.
Proof. reflexivity. Qed.

Example Trim_blank : strings.Trim nl nl = EmptyString.
Proof. reflexivity. Qed.

Example Split_empty : strings.Split EmptyString " " = [EmptyString].
Proof. reflexivity. Qed.

Example Split_points : strings.Split "0,0 1,1" " " = ["0,0"; "1,1"]%string.
Proof. reflexivity. Qed.

Example Split_three : strings.Split "1,2,3" "," = ["1"; "2"; "3"]%string.
Proof. reflexivity. Qed.

Example Atoi_12 : strconv.Atoi "12" = (12, None).
Proof. reflexivity. Qed.

Example Atoi_neg : strconv.Atoi "-7" = (-7, None).
Proof. reflexivity. Qed.

Example Atoi_bad : strconv.Atoi "1x" = (0, Some strconv.ErrSyntax).
Proof. reflexivity. Qed.

Example Atoi_sign_only : strconv.Atoi "+" = (0, Some strconv.ErrSyntax).
Proof. reflexivity. Qed.

Example Atoi_too_big :
  strconv.Atoi "9223372036854775808" = (Int.max_int, Some strconv.ErrRange).
Proof. reflexivity. Qed.

Example Atoi_min : strconv.Atoi "-9223372036854775808" = (Int.min_int, None).
Proof. reflexivity. Qed.

Example ReadString_line :
  bufio.ReadString (stream ("2,2" +:+ nl +:+ "0,0 1,1")) LF
  = ("2,2" +:+ nl, None, stream "0,0 1,1").
Proof. reflexivity. Qed.

Example ReadString_end :
  bufio.ReadString (stream "0,0 1,1") LF
  = ("0,0 1,1"%string, Some bufio.EOF, stream EmptyString).
Proof. reflexivity. Qed.

(** ** Integers and indexing *)

Lemma wrap_in_range z : Int.in_range z -> Int.wrap z = z.
Proof.
  unfold Int.in_range, Int.min_int, Int.max_int, Int.wrap. intros H.
  rewrite Z.mod_small; lia.
Qed.

Lemma wrap_bounds z : Int.in_range (Int.wrap z).
Proof.
  unfold Int.in_range, Int.min_int, Int.max_int, Int.wrap.
  pose proof (Z.mod_pos_bound (z + 2 ^ 63) (2 ^ 64) ltac:(lia)). lia.
Qed.

Lemma in_bounds_true {A} (l : list A) i :
  in_bounds l i = true <-> 0 <= i < Z.of_nat (length l).
Proof. unfold in_bounds. rewrite andb_true_iff, Z.leb_le, Z.ltb_lt. tauto. Qed.

Lemma index_Ret {A} (l : list A) i x :
  index l i = Ret x <-> 0 <= i /\ l !! Z.to_nat i = Some x.
Proof.
  unfold index. destruct (in_bounds l i) eqn:Hb.
  - apply in_bounds_true in Hb. destruct (l !! Z.to_nat i) eqn:Hl.
    + split; [intros [= ->]; split; [lia | done] | intros [_ [= ->]]; done].
    + split; [done | intros [_ ?]; done].
  - split; [done |]. intros [H0 Hl]. apply lookup_lt_Some in Hl.
    assert (in_bounds l i = true) by (apply in_bounds_true; lia). congruence.
Qed.

Lemma index_in_bounds {A} (l : list A) i :
  in_bounds l i = true -> exists x, index l i = Ret x /\ l !! Z.to_nat i = Some x.
Proof.
  intros Hb. unfold index. rewrite Hb. apply in_bounds_true in Hb.
  destruct (lookup_lt_is_Some_2 l (Z.to_nat i)) as [x Hx]; [lia |].
  rewrite Hx. eauto.
Qed.

Lemma index_panic {A} (l : list A) i p : index l i = Panic p -> p = IndexOutOfRange.
Proof.
  unfold index. destruct (in_bounds l i); [destruct (l !! Z.to_nat i) |]; congruence.
Qed.

Lemma set_index_Ret {A} (l l' : list A) i x :
  set_index l i x = Ret l' <-> (0 <= i < Z.of_nat (length l)) /\ l' = <[Z.to_nat i := x]> l.
Proof.
  unfold set_index. destruct (in_bounds l i) eqn:Hb.
  - apply in_bounds_true in Hb. split; [intros [= <-]; done | intros [_ ->]; done].
  - split; [done |]. intros [H _]. apply in_bounds_true in H. congruence.
Qed.

Lemma set_index_panic {A} (l : list A) i x p :
  set_index l i x = Panic p -> p = IndexOutOfRange.
Proof. unfold set_index. destruct (in_bounds l i); congruence. Qed.

Lemma bind_Ret {A B} (m : result A) (k : A -> result B) (v : B) :
  bind m k = Ret v <-> exists a, m = Ret a /\ k a = Ret v.
Proof.
  destruct m as [a | p]; simpl.
  - split; [eauto | intros (a' & [= <-] & H); done].
  - split; [done | intros (a' & H & _); done].
Qed.

Lemma bind_Panic {A B} (m : result A) (k : A -> result B) (p : panic) :
  bind m k = Panic p <-> m = Panic p \/ exists a, m = Ret a /\ k a = Panic p.
Proof.
  destruct m as [a | q]; simpl.
  - split; [eauto | intros [H | (a' & [= <-] & H)]; done].
  - split; [intros [= ->]; auto | intros [[= ->] | (a' & H & _)]; done].
Qed.

(** ** The reading loop of [New] ends *)

Lemma read_until_shorter s delim line rest :
  bufio.read_until s delim = (line, Some rest) ->
  (String.length rest < String.length s)%nat.
Proof.
  revert line rest. induction s as [| a s IH]; intros line rest; simpl.
  - discriminate.
  - destruct (Ascii.eqb a delim).
    + intros [= _ <-]. lia.
    + destruct (bufio.read_until s delim) as [l rs].
      intros [= _ ->]. specialize (IH l rest eq_refl). lia.
Qed.

Lemma ReadString_shorter r delim line r' :
  bufio.ReadString r delim = (line, None, r') ->
  (String.length (bufio.pending r') < String.length (bufio.pending r))%nat.
Proof.
  unfold bufio.ReadString.
  destruct (bufio.read_until (bufio.pending r) delim) as [l [rest |]] eqn:E.
  - intros [= _ <-]. simpl. eauto using read_until_shorter.
  - discriminate.
Qed.

Lemma New_loop_terminates fuel r board index line err :
  ((if is_err err then 1 else 2 + String.length (bufio.pending r)) <= fuel)%nat ->
  is_Some (New_loop fuel r board index line err).
Proof.
  revert r board index line err.
  induction fuel as [| fuel IH]; intros r board index line err Hfuel.
  - destruct err; simpl in Hfuel; lia.
  - simpl. destruct (insertPoints board line index) as [[board' readErr] | p]; [| eauto].
    destruct err as [e |]; simpl; [eauto |].
    destruct readErr as [e |]; simpl; [eauto |].
    destruct (bufio.ReadString r LF) as [[line' err'] r'] eqn:E.
    apply IH. destruct err' as [e |]; simpl in *; [lia |].
    apply ReadString_shorter in E. lia.
Qed.

(** The fuel [New] gives its loop suffices: the branch of [New] for a
    loop that runs out of fuel is never taken. *)
Lemma New_fuel_suffices r board :
  is_Some (New_loop (2 + String.length (bufio.pending r)) r board 0 EmptyString None).
Proof. apply New_loop_terminates. simpl. lia. Qed.

(** Boolean comparisons of the code as propositions, then [lia]. *)
Ltac zbool :=
  repeat match goal with
    | H : (_ || _) = true |- _ => apply orb_true_iff in H as [H | H]
    | H : (_ || _) = false |- _ => apply orb_false_iff in H as [? H]
    | H : (_ && _) = true |- _ => apply andb_true_iff in H as [? H]
    | H : (_ && _) = false |- _ => apply andb_false_iff in H as [H | H]
    | H : negb _ = true |- _ => apply negb_true_iff in H
    | H : negb _ = false |- _ => apply negb_false_iff in H
    | H : (_ <? _) = true |- _ => apply Z.ltb_lt in H
    | H : (_ <? _) = false |- _ => apply Z.ltb_ge in H
    | H : (_ <=? _) = true |- _ => apply Z.leb_le in H
    | H : (_ <=? _) = false |- _ => apply Z.leb_gt in H
    | H : (_ =? _) = true |- _ => apply Z.eqb_eq in H
    | H : (_ =? _) = false |- _ => apply Z.eqb_neq in H
    end.

Ltac blia := zbool; lia.

(** ** The slice manipulation of [ColorCell] *)

Lemma make_fresh (x : nat) :
  Z.of_nat x < Int.max_int ->
  slices.make [] (Z.of_nat x) (Int.add (Z.of_nat x) 1)
  = Ret ([replicate (S x) (0, 0)], slices.Slice 0 x).
Proof.
  intros Hx. unfold slices.make, Int.add.
  rewrite wrap_in_range by (unfold Int.in_range, Int.min_int, Int.max_int in *; lia).
  destruct (Z.of_nat x <? 0) eqn:E1; [lia |].
  destruct (Z.of_nat x + 1 <? Z.of_nat x) eqn:E2; [lia |]. simpl.
  replace (Z.to_nat (Z.of_nat x + 1)) with (S x) by lia.
  rewrite Nat2Z.id. reflexivity.
Qed.

(** Copying [ps] over the cells [length pre ..] of the only backing array. *)
Lemma copy_points_spec (ps pre old post : list Point) (L : nat) :
  length old = length ps ->
  (length pre + length ps <= L)%nat ->
  copy_points [pre ++ old ++ post] (slices.Slice 0 L) (Z.of_nat (length pre)) ps
  = Ret [pre ++ ps ++ post].
Proof.
  revert pre old. induction ps as [| p ps IH]; intros pre old Hlen HL.
  - destruct old; [reflexivity | discriminate].
  - destruct old as [| o old]; [discriminate |]. simpl in Hlen, HL.
    cbn [copy_points]. unfold slices.set. cbn [slices.len slices.array].
    destruct ((0 <=? Z.of_nat (length pre)) && (Z.of_nat (length pre) <? Z.of_nat L)) eqn:E.
    2:{ apply andb_false_iff in E. destruct E as [E | E]; lia. }
    cbn [bind]. unfold slices.backing. cbn [slices.array lookup list_lookup default].
    simpl. rewrite Nat2Z.id.
    replace (<[length pre := p]> (pre ++ o :: old ++ post)) with ((pre ++ [p]) ++ old ++ post).
    2:{ rewrite insert_app_r_alt by lia. rewrite Nat.sub_diag. simpl.
        rewrite <- app_assoc. reflexivity. }
    replace (Z.of_nat (length pre) + 1) with (Z.of_nat (length (pre ++ [p])))
      by (rewrite length_app; simpl; lia).
    rewrite IH.
    + rewrite <- app_assoc. reflexivity.
    + lia.
    + rewrite length_app. simpl. lia.
Qed.

Lemma copy_points_fresh (flow : list Point) :
  copy_points [replicate (S (length flow)) (0, 0)] (slices.Slice 0 (length flow)) 0 flow
  = Ret [flow ++ [(0, 0)]].
Proof.
  pose proof (copy_points_spec flow [] (replicate (length flow) (0, 0)) [(0, 0)] (length flow)) as H.
  simpl in H. rewrite replicate_S_end. rewrite <- H; [reflexivity | | lia].
  apply length_replicate.
Qed.

(** The slice operations on a store with a single backing array. *)
Lemma elems_single (arr : list Point) (L : nat) :
  slices.elems [arr] (slices.Slice 0 L) = take L arr.
Proof. reflexivity. Qed.

Lemma upto_single (arr : list Point) (L : nat) (hi : Z) :
  0 <= hi <= Z.of_nat (length arr) ->
  slices.upto [arr] (slices.Slice 0 L) hi = Ret (slices.Slice 0 (Z.to_nat hi)).
Proof.
  intros H. unfold slices.upto, slices.cap, slices.backing. simpl.
  destruct (0 <=? hi) eqn:E1; [| blia].
  destruct (hi <=? Z.of_nat (length arr)) eqn:E2; [reflexivity | blia].
Qed.

Lemma get_single (arr : list Point) (L : nat) (i : Z) :
  slices.get [arr] (slices.Slice 0 L) i = index (take L arr) i.
Proof. reflexivity. Qed.

Lemma append_single (arr ps : list Point) (L : nat) :
  (L + length ps <= length arr)%nat ->
  slices.append [arr] (slices.Slice 0 L) ps
  = ([take L arr ++ ps ++ drop (L + length ps) arr], slices.Slice 0 (L + length ps)).
Proof.
  intros H. unfold slices.append, slices.cap, slices.elems, slices.backing. simpl.
  destruct (L + length ps <=? length arr)%nat eqn:E; [reflexivity |].
  apply Nat.leb_gt in E. lia.
Qed.

Lemma grid_set_of_Get (b : Board) line col v0 v :
  Get b line col = Ret v0 ->
  exists row,
    grid b !! Z.to_nat line = Some row /\
    grid_set (grid b) line col v
    = Ret (<[Z.to_nat line := <[Z.to_nat col := v]> row]> (grid b)).
Proof.
  unfold Get, grid_set. intros H. apply bind_Ret in H as (row & Hrow & Hcell).
  exists row. rewrite Hrow. cbn [bind].
  apply index_Ret in Hrow as [Hl Hrow]. apply index_Ret in Hcell as [Hc Hcell].
  split; [done |].
  apply lookup_lt_Some in Hcell. pose proof (lookup_lt_Some _ _ _ Hrow) as Hlt.
  unfold set_index.
  assert (in_bounds row col = true) as -> by (apply in_bounds_true; lia).
  cbn [bind].
  assert (in_bounds (grid b) line = true) as -> by (apply in_bounds_true; lia).
  reflexivity.
Qed.

(** The slices of [ColorCell] hold the lists of [ColorCell_value]. *)
Lemma ColorCell_value_eq (b : Board) (k line col : Z) :
  ColorCell b k line col = ColorCell_value b k line col.
Proof.
  unfold ColorCell, ColorCell_value.
  destruct ((k <? 0) || (Z.of_nat (length (flows b)) <=? k)) eqn:E1; [reflexivity |].
  destruct ((line <? 0) || (Lines b <=? line)) eqn:E2; [reflexivity |].
  destruct (Cols b) as [nc | p]; cbn [bind]; [| reflexivity].
  destruct ((col <? 0) || (nc <=? col)) eqn:E3; [reflexivity |].
  destruct (Get b line col) as [cell | p]; cbn [bind]; [| reflexivity].
  destruct (negb (cell =? 0)); [reflexivity |].
  destruct (index (flows b) k) as [flow | p] eqn:Hflow; cbn [bind]; [| reflexivity].
  cbv zeta.
  destruct (Int.max_int <=? Z.of_nat (length flow)) eqn:Hlen.
  { (* make([]Point, sliceLen, sliceLen+1) with a wrapped capacity *)
    unfold slices.make.
    pose proof (wrap_bounds (Z.of_nat (length flow) + 1)) as Hw.
    unfold Int.in_range in Hw. fold (Int.add (Z.of_nat (length flow)) 1) in Hw.
    destruct (Z.of_nat (length flow) <? 0) eqn:F1; [blia |].
    destruct (Int.add (Z.of_nat (length flow)) 1 <? Z.of_nat (length flow)) eqn:F2;
      [reflexivity |].
    assert (Z.of_nat (length flow) = Int.max_int) as Heq by blia.
    rewrite Heq in F2. vm_compute in F2. discriminate. }
  rewrite make_fresh by blia. cbn [bind fst snd slices.len].
  rewrite copy_points_fresh. cbn [bind].
  destruct flow as [| p0 flow0] using rev_ind.
  { (* c[:len(c)-1] on an empty c *) reflexivity. }
  clear IHflow0. rename flow0 into init, p0 into t.
  rewrite last_snoc, removelast_last.
  assert (Hn : length (init ++ [t]) = S (length init)) by (rewrite length_app; simpl; lia).
  assert (Int.sub (Z.of_nat (length (init ++ [t]))) 1 = Z.of_nat (length init)) as ->.
  { unfold Int.sub. rewrite wrap_in_range; [lia |].
    unfold Int.in_range, Int.min_int, Int.max_int in *. blia. }
  rewrite upto_single by (rewrite !length_app; cbn [length]; lia).
  cbn [bind]. rewrite Nat2Z.id. rewrite get_single, take_app_length.
  assert (index (init ++ [t]) (Z.of_nat (length init)) = Ret t) as ->.
  { apply index_Ret. split; [lia |].
    rewrite Nat2Z.id. rewrite lookup_app_r by lia. rewrite Nat.sub_diag. done. }
  cbn [bind].
  rewrite append_single by (rewrite !length_app; cbn [length]; lia).
  rewrite <- (app_assoc init [t]), take_app_length.
  rewrite drop_ge by (rewrite !length_app; cbn [length]; lia).
  rewrite upto_single by (rewrite !length_app; cbn [length]; lia).
  cbn [bind]. rewrite Nat2Z.id, !elems_single. cbn [length app].
  assert (take (length (init ++ [t])) (init ++ [(line, col); t]) = init ++ [(line, col)]) as ->.
  { rewrite Hn. replace (S (length init)) with (length init + 1)%nat by lia.
    rewrite take_app_add. reflexivity. }
  assert (take (length init + 2) (init ++ [(line, col); t]) = init ++ [(line, col); t]) as ->.
  { apply take_ge. rewrite length_app. cbn [length]. lia. }
  rewrite <- app_assoc. cbn [app].
  destruct (AreAllAjacent (init ++ [(line, col)])); cbn [negb]; [| reflexivity].
  destruct (grid_set (grid b) line col (Int.add k 1)) as [g | p]; cbn [bind]; [| reflexivity].
  unfold set_index. apply index_Ret in Hflow as [Hk Hflow]. apply lookup_lt_Some in Hflow.
  rewrite (proj2 (in_bounds_true _ _)) by lia.
  reflexivity.
Qed.

(** ** [ColorCell]: what a call returns *)

(** One step of case analysis on a hypothesis about a monadic result. *)
Ltac step H :=
  match type of H with
  | (if ?c then _ else _) = _ => destruct c eqn:?
  | bind ?m _ = _ => destruct m eqn:?; cbn [bind] in H
  | match ?x with _ => _ end = _ => destruct x eqn:?
  end.

(** A successful call: which guards it passed and what it stored. *)
Lemma ColorCell_success (b b' : Board) (k line col : Z) :
  ColorCell b k line col = Ret (b', None) ->
  exists nc flow tail g,
    0 <= k /\ flows b !! Z.to_nat k = Some flow /\ last flow = Some tail /\
    Z.of_nat (length flow) < Int.max_int /\
    0 <= line < Lines b /\ Cols b = Ret nc /\ 0 <= col < nc /\
    Get b line col = Ret 0 /\
    AreAllAjacent (removelast flow ++ [(line, col)]) = true /\
    grid_set (grid b) line col (Int.add k 1) = Ret g /\
    b' = mkBoard g (<[Z.to_nat k := removelast flow ++ [(line, col); tail]]> (flows b)).
Proof.
  rewrite ColorCell_value_eq. unfold ColorCell_value. intros H.
  repeat step H; try discriminate.
  injection H as <-.
  match goal with Hi : index (flows b) k = Ret _ |- _ => apply index_Ret in Hi as [? ?] end.
  match goal with Hc : negb (?z =? 0) = false |- _ =>
    assert (z = 0) as -> by blia end.
  zbool. eexists _, _, _, _. rewrite <- app_assoc. cbn [app].
  repeat split; try eassumption; try reflexivity; lia.
Qed.

(** A call the guards let through, on a non-empty flow. *)
Lemma ColorCell_past_guards (b : Board) (k line col nc : Z) (flow : Color) (tail : Point) :
  0 <= k ->
  flows b !! Z.to_nat k = Some flow ->
  last flow = Some tail ->
  Z.of_nat (length flow) < Int.max_int ->
  0 <= line < Lines b ->
  Cols b = Ret nc ->
  0 <= col < nc ->
  Get b line col = Ret 0 ->
  exists g,
    grid_set (grid b) line col (Int.add k 1) = Ret g /\
    ColorCell b k line col =
      if AreAllAjacent (removelast flow ++ [(line, col)])
      then Ret (mkBoard g (<[Z.to_nat k := removelast flow ++ [(line, col); tail]]> (flows b)), None)
      else Ret (b, Some (NotAjacent (removelast flow ++ [(line, col)]))).
Proof.
  intros Hk Hflow Hlast Hlen Hline Hcols Hcol Hcell.
  pose proof (lookup_lt_Some _ _ _ Hflow) as Hklt.
  destruct (grid_set_of_Get b line col 0 (Int.add k 1) Hcell) as (row & _ & Hset).
  eexists. split; [exact Hset |].
  rewrite ColorCell_value_eq. unfold ColorCell_value.
  destruct ((k <? 0) || (Z.of_nat (length (flows b)) <=? k)) eqn:E1; [blia |].
  destruct ((line <? 0) || (Lines b <=? line)) eqn:E2; [blia |].
  rewrite Hcols. cbn [bind].
  destruct ((col <? 0) || (nc <=? col)) eqn:E3; [blia |].
  rewrite Hcell. cbn [bind]. simpl (negb (0 =? 0)). cbv iota.
  rewrite (proj2 (index_Ret (flows b) k flow)) by done. cbn [bind].
  destruct (Int.max_int <=? Z.of_nat (length flow)) eqn:E4; [blia |].
  rewrite Hlast. cbv zeta. rewrite Hset. cbn [bind].
  rewrite <- app_assoc. cbn [app].
  destruct (AreAllAjacent (removelast flow ++ [(line, col)])); reflexivity.
Qed.

Lemma ColorCell_error (b b' : Board) (k line col : Z) (e : error) :
  ColorCell b k line col = Ret (b', Some e) -> b' = b.
Proof.
  rewrite ColorCell_value_eq. unfold ColorCell_value. intros H.
  repeat step H; try discriminate; injection H as <- <-; done.
Qed.

(** The panics of indexing are all [IndexOutOfRange]. *)
Create HintDb panics.

Lemma grid_set_panic g line col v p : grid_set g line col v = Panic p -> p = IndexOutOfRange.
Proof.
  unfold grid_set. intros H.
  repeat step H; try discriminate; try injection H as <-;
    eauto using index_panic, set_index_panic.
Qed.

Lemma Cols_panic b p : Cols b = Panic p -> p = IndexOutOfRange.
Proof.
  unfold Cols. intros H. repeat step H; try discriminate; try injection H as <-;
    eauto using index_panic.
Qed.

Lemma Get_panic b line col p : Get b line col = Panic p -> p = IndexOutOfRange.
Proof.
  unfold Get. intros H. repeat step H; try discriminate; try injection H as <-;
    eauto using index_panic.
Qed.

#[local] Hint Resolve index_panic set_index_panic grid_set_panic Cols_panic Get_panic : panics.

(** No panic of those is the slice-bounds panic. *)
Ltac not_slice_panic :=
  match goal with
  | Hp : _ = Panic SliceBoundsOutOfRange |- _ =>
      assert (SliceBoundsOutOfRange = IndexOutOfRange) by eauto with panics; discriminate
  end.

(** The only way into the slice-bounds panic of [ColorCell] is an empty flow. *)
Lemma ColorCell_slice_panic (b : Board) (k line col : Z) :
  ColorCell b k line col = Panic SliceBoundsOutOfRange ->
  0 <= k /\ flows b !! Z.to_nat k = Some [].
Proof.
  rewrite ColorCell_value_eq. unfold ColorCell_value. intros H.
  repeat step H; try discriminate; try (injection H as H; subst); try not_slice_panic.
  match goal with Hi : index (flows b) k = Ret ?f |- _ =>
    apply index_Ret in Hi as [? Hi]; destruct f as [| x f _] using rev_ind end.
  - done.
  - rewrite last_snoc in *. discriminate.
Qed.

(** ** Every flow has at least two points *)

Lemma insertPoints_range_flows board index points c board' c' e :
  insertPoints_range board index points c = Ret (board', c', e) ->
  flows board' = flows board /\
  (e = None -> length c' = (length c + length points)%nat).
Proof.
  revert board c. induction points as [| point points IH]; intros board c H.
  - injection H as <- <- <-. split; [done | simpl; lia].
  - cbn [insertPoints_range] in H.
    destruct (strings.Split point ",") as [| s0 [| s1 [| s2 rest]]];
      try (injection H as <- <- <-; split; [done | discriminate]).
    destruct (strconv.Atoi s0) as [i err], (strconv.Atoi s1) as [j err2].
    destruct (out_of_board board err err2 i j) as [[|] | p]; cbn [bind] in H;
      [injection H as <- <- <-; split; [done | discriminate] | | discriminate].
    destruct (grid_set (grid board) i j index) as [g | p]; cbn [bind] in H; [| discriminate].
    apply IH in H as [Hf Hlen]. cbn [flows] in Hf. split; [done |].
    intros He. rewrite (Hlen He), length_app. simpl. lia.
Qed.

Lemma insertPoints_flows board line index board' e :
  insertPoints board line index = Ret (board', e) ->
  flows board' = flows board \/
  exists c, length c = 2%nat /\ flows board' = flows board ++ [c].
Proof.
  unfold insertPoints. intros H.
  destruct (String.eqb line EmptyString); [injection H as <- <-; auto |].
  destruct (negb (length (strings.Split (strings.Trim line nl) " ") =? 2)%nat) eqn:E;
    [injection H as <- <-; auto |].
  apply negb_false_iff, Nat.eqb_eq in E.
  destruct (insertPoints_range board index _ []) as [[[bd c] err] | p] eqn:R;
    cbn [bind] in H; [| discriminate].
  apply insertPoints_range_flows in R as [Hf Hlen].
  destruct err as [e0 |]; injection H as <- <-; [auto |].
  right. exists c. cbn [flows]. rewrite Hf, Hlen, E by done. done.
Qed.

Lemma insertPoints_two_points board line index board' e :
  insertPoints board line index = Ret (board', e) ->
  two_points (flows board) -> two_points (flows board').
Proof.
  intros H Hb. apply insertPoints_flows in H as [-> | (c & Hc & ->)]; [done |].
  apply Forall_app. split; [done |]. by apply Forall_singleton.
Qed.

Lemma New_loop_two_points fuel r board index line err board' e :
  New_loop fuel r board index line err = Some (Ret (board', e)) ->
  two_points (flows board) -> two_points (flows board').
Proof.
  revert r board index line err.
  induction fuel as [| fuel IH]; intros r board index line err H Hb; [discriminate |].
  cbn [New_loop] in H.
  destruct (insertPoints board line index) as [[bd readErr] | p] eqn:I; [| by injection H].
  apply insertPoints_two_points in I; [| done].
  destruct (is_err err || is_err readErr).
  - by injection H as <- <-.
  - destruct (bufio.ReadString r LF) as [[line' err'] r']. eauto.
Qed.

(** What [New] returns holds flows of exactly two points. *)
Lemma New_two_points txt b e : New txt = Ret (b, e) -> two_points (flows b).
Proof.
  unfold New. intros H.
  destruct (bufio.ReadString txt LF) as [[sizeString err] r].
  destruct err; [injection H as <- <-; constructor |].
  destruct (getSize sizeString) as [[lines cols] err].
  destruct err; [injection H as <- <-; constructor |].
  destruct (make_grid lines) as [g0 | p]; cbn [bind] in H; [| discriminate].
  destruct (New_rows (Z.to_nat cols) 0 cols g0) as [g | p]; cbn [bind] in H; [| discriminate].
  destruct (New_loop _ r (mkBoard g []) 0 EmptyString None) as [[[bd e0] | p] |] eqn:L;
    cbn [bind fst] in H; try discriminate.
  - injection H as <- <-. eapply New_loop_two_points; [exact L | constructor].
  - injection H as <- <-. constructor.
Qed.

Lemma ColorCell_at_least_two b k line col b' e :
  ColorCell b k line col = Ret (b', e) ->
  at_least_two (flows b) -> at_least_two (flows b').
Proof.
  intros H Hb. destruct e as [e |].
  - apply ColorCell_error in H as ->. done.
  - apply ColorCell_success in H
      as (nc & flow & tail & g & Hk & Hflow & Hlast & _ & _ & _ & _ & _ & _ & _ & ->).
    cbn [flows]. apply Forall_insert; [done |].
    rewrite length_app. simpl. lia.
Qed.

Lemma reachable_at_least_two b : reachable b -> at_least_two (flows b).
Proof.
  induction 1 as [txt b e H | b b' k line col e _ IH H].
  - apply New_two_points in H. unfold at_least_two.
    eapply Forall_impl; [exact H |]. simpl. intros flow ->. lia.
  - eauto using ColorCell_at_least_two.
Qed.

(** ** [Solved] on a rectangular grid *)

Lemma for_loop_ext {R} (n : nat) (lo : Z) (body body' : Z -> result (option R)) :
  (forall i, lo <= i < lo + Z.of_nat n -> body i = body' i) ->
  for_loop n lo body = for_loop n lo body'.
Proof.
  revert lo. induction n as [| n IH]; intros lo H; [reflexivity |].
  cbn [for_loop]. rewrite (H lo) by lia.
  destruct (body' lo) as [[v |] | p]; cbn [bind]; try reflexivity.
  apply IH. intros i Hi. apply H. lia.
Qed.

(** The inner loop over one row: it returns [false] at the first 0. *)
Lemma scan_row (pre rest : list Z) :
  for_loop (length rest) (Z.of_nat (length pre))
    (fun j => cell <- index (pre ++ rest) j ;;
              if cell =? 0 then Ret (Some false) else Ret None)
  = Ret (if forallb (fun cell => negb (cell =? 0)) rest then None else Some false).
Proof.
  revert pre. induction rest as [| cell rest IH]; intros pre; [reflexivity |].
  cbn [length for_loop forallb].
  rewrite (proj2 (index_Ret (pre ++ cell :: rest) (Z.of_nat (length pre)) cell)).
  2:{ split; [lia |]. rewrite Nat2Z.id. by rewrite list_lookup_middle. }
  cbn [bind]. destruct (cell =? 0); cbn [bind negb andb]; [reflexivity |].
  specialize (IH (pre ++ [cell])). rewrite <- app_assoc, length_app in IH.
  cbn [length app] in IH.
  replace (Z.of_nat (length pre) + 1) with (Z.of_nat (length pre + 1)) by lia.
  exact IH.
Qed.

Section SolvedOnMatrix.

(** A board whose rows all have [cols] cells. *)
Variable b : Board.
Variable cols : nat.
Hypothesis Hrect : Forall (fun row => length row = cols) (grid b).

Lemma Cols_matrix : grid b <> [] -> Cols b = Ret (Z.of_nat cols).
Proof.
  unfold Cols. destruct (grid b) as [| row0 g]; [done |]. intros _.
  apply Forall_cons in Hrect as [<- _]. reflexivity.
Qed.

(** The outer loop over the rows that are left. *)
Lemma scan_rows (pre rest : list (list Z)) :
  grid b = pre ++ rest ->
  for_loop (length rest) (Z.of_nat (length pre))
    (fun i => c <- Cols b ;;
              for_to c (fun j => cell <- Get b i j ;;
                                 if cell =? 0 then Ret (Some false) else Ret None))
  = Ret (if grid_full rest then None else Some false).
Proof.
  revert pre. induction rest as [| row rest IH]; intros pre Hg; [reflexivity |].
  cbn [length for_loop].
  assert (Hrow : index (grid b) (Z.of_nat (length pre)) = Ret row).
  { apply index_Ret. split; [lia |]. rewrite Nat2Z.id, Hg. by rewrite list_lookup_middle. }
  assert (Hlen : length row = cols).
  { rewrite Forall_forall in Hrect. apply Hrect. rewrite Hg.
    apply elem_of_app. right. left. }
  rewrite Cols_matrix at 1 by (rewrite Hg; by destruct pre).
  cbn [bind]. unfold for_to at 1. rewrite Nat2Z.id.
  rewrite (for_loop_ext cols 0 _
             (fun j => cell <- index row j ;;
                       if cell =? 0 then Ret (Some false) else Ret None)).
  2:{ intros j _. unfold Get. rewrite Hrow. reflexivity. }
  rewrite <- Hlen. pose proof (scan_row [] row) as Hscan.
  cbn [length app] in Hscan. change (Z.of_nat 0) with 0 in Hscan. rewrite Hscan.
  unfold grid_full. cbn [forallb]. fold (grid_full rest).
  destruct (forallb (fun cell => negb (cell =? 0)) row); cbn [bind andb]; [| reflexivity].
  specialize (IH (pre ++ [row])). rewrite <- app_assoc, length_app in IH.
  cbn [length app] in IH.
  replace (Z.of_nat (length pre) + 1) with (Z.of_nat (length pre + 1)) by lia.
  apply IH. exact Hg.
Qed.

End SolvedOnMatrix.

Lemma Solved_flows_forallb (fl : list Color) : Solved_flows fl = forallb AreAllAjacent fl.
Proof.
  induction fl as [| c fl IH]; [reflexivity |].
  cbn [Solved_flows forallb]. rewrite IH. by destruct (AreAllAjacent c).
Qed.

(** [Solved] on a matrix: full grid and adjacent flows. *)
Lemma Solved_rectangular (b : Board) :
  rectangular (grid b) ->
  Solved b = Ret (grid_full (grid b) && forallb AreAllAjacent (flows b)).
Proof.
  intros [cols Hrect]. unfold Solved, Lines. unfold for_to at 1. rewrite Nat2Z.id.
  pose proof (scan_rows b cols Hrect [] (grid b) eq_refl) as Hscan.
  cbn [length] in Hscan. change (Z.of_nat 0) with 0 in Hscan. rewrite Hscan.
  destruct (grid_full (grid b)); cbn [bind andb]; [| reflexivity].
  by rewrite Solved_flows_forallb.
Qed.

(** ** What [New] can return *)

(** Once the header line has been read and parsed, [New] returns a [nil]
    error whatever the flow lines hold: the only errors it returns are
    those of the header. *)
Lemma New_errors txt b e :
  New txt = Ret (b, Some e) ->
  b = mkBoard [] [] /\ ((exists io, e = ErrReadingInput io) \/ e = BadSizeFormat).
Proof.
  unfold New. intros H.
  destruct (bufio.ReadString txt LF) as [[sizeString err] r].
  destruct err as [io |]; [injection H as <- <-; eauto |].
  destruct (getSize sizeString) as [[lines cols] err] eqn:G.
  destruct err as [e0 |].
  - injection H as <- <-. split; [done |]. right.
    unfold getSize in G.
    destruct (strings.Split (strings.Trim sizeString nl) ",") as [| s0 [| s1 [| s2 rest]]];
      try (by injection G as _ _ <-).
    destruct (strconv.Atoi s0) as [l err], (strconv.Atoi s1) as [c err2].
    destruct (is_err err || is_err err2); [by injection G as _ _ <- | discriminate].
  - destruct (make_grid lines) as [g0 | p]; cbn [bind] in H; [| discriminate].
    destruct (New_rows (Z.to_nat cols) 0 cols g0) as [g | p]; cbn [bind] in H; [| discriminate].
    destruct (New_loop _ r (mkBoard g []) 0 EmptyString None) as [[[bd e0] | p] |];
      cbn [bind fst] in H; discriminate.
Qed.

(** A blank line reaches [insertPoints] as a lone newline, which is not
    the empty string: it is refused like any other malformed line. *)
Lemma insertPoints_blank_line board index :
  insertPoints board nl index = Ret (board, Some BadLineFormat).
Proof. reflexivity. Qed.

(** What [runtime.makeslice] accepts. *)
Lemma makeslice_ok_true (size len : Z) :
  runtime.makeslice_ok size len = true <-> 0 <= len /\ size * len <= runtime.maxAlloc.
Proof. unfold runtime.makeslice_ok. split; intros H; blia. Qed.


(** The rows [New] allocates: [cols] rows of [cols] cells when a row of
    [cols] cells can be made and there are at least [cols] rows, the
    remaining rows left nil; a panic of [make] when the loop runs and a
    row is too large, a panic of the index when there are fewer rows. *)
Lemma New_rows_spec (todo : nat) (cols : Z) (pre rest : list (list Z)) :
  New_rows todo (Z.of_nat (length pre)) cols (pre ++ rest) =
    if Nat.eqb todo 0 || runtime.makeslice_ok 8 cols
    then if (todo <=? length rest)%nat
         then Ret (pre ++ replicate todo (replicate (Z.to_nat cols) 0) ++ drop todo rest)
         else Panic IndexOutOfRange
    else Panic MakeSliceOutOfRange.
Proof.
  revert pre rest. induction todo as [| todo IH]; intros pre rest.
  - reflexivity.
  - cbn [New_rows Nat.eqb orb]. unfold make_row.
    destruct (runtime.makeslice_ok 8 cols) eqn:Hok; cbn [bind]; [| reflexivity].
    unfold set_index.
    destruct rest as [| row rest].
    + rewrite app_nil_r.
      assert (in_bounds pre (Z.of_nat (length pre)) = false) as ->; [| reflexivity].
      destruct (in_bounds pre (Z.of_nat (length pre))) eqn:E; [| done].
      apply in_bounds_true in E. lia.
    + assert (in_bounds (pre ++ row :: rest) (Z.of_nat (length pre)) = true) as ->.
      { apply in_bounds_true. rewrite length_app. simpl. lia. }
      cbn [bind]. rewrite Nat2Z.id.
      rewrite insert_app_r_alt by lia. rewrite Nat.sub_diag. cbn [insert list_insert].
      specialize (IH (pre ++ [replicate (Z.to_nat cols) 0]) rest).
      rewrite length_app, <- app_assoc in IH. cbn [length app] in IH.
      replace (Z.of_nat (length pre) + 1) with (Z.of_nat (length pre + 1)) by lia.
      rewrite IH, ?Hok, orb_true_r. cbn [length drop replicate].
      change (S todo <=? S (length rest))%nat with (todo <=? length rest)%nat.
      destruct (todo <=? length rest)%nat; [| reflexivity].
      by rewrite <- app_assoc.
Qed.

(** The grid [New] starts from, when every [make] is served. *)
Lemma New_grid_made (lines cols : Z) :
  0 <= lines -> 24 * lines <= runtime.maxAlloc -> 8 * cols <= runtime.maxAlloc ->
  (g <- make_grid lines ;; New_rows (Z.to_nat cols) 0 cols g) =
    if (Z.to_nat cols <=? Z.to_nat lines)%nat
    then Ret (replicate (Z.to_nat cols) (replicate (Z.to_nat cols) 0)
              ++ replicate (Z.to_nat lines - Z.to_nat cols) [])
    else Panic IndexOutOfRange.
Proof.
  intros Hl Hal Hac. unfold make_grid.
  rewrite (proj2 (makeslice_ok_true 24 lines)) by lia. cbn [bind].
  pose proof (New_rows_spec (Z.to_nat cols) cols [] (replicate (Z.to_nat lines) [])) as H.
  cbn [length app] in H. change (Z.of_nat 0) with 0 in H. rewrite H.
  rewrite length_replicate, drop_replicate.
  destruct (Z.to_nat cols) as [| todo] eqn:E; [reflexivity |].
  rewrite (proj2 (makeslice_ok_true 8 cols)) by lia. reflexivity.
Qed.

(** The grid of a board that [New] returns: [New] returned, so every
    [make] was served and no row was missing. *)
Lemma New_grid_returned (lines cols : Z) (g : list (list Z)) :
  (g0 <- make_grid lines ;; New_rows (Z.to_nat cols) 0 cols g0) = Ret g ->
  g = replicate (Z.to_nat cols) (replicate (Z.to_nat cols) 0)
      ++ replicate (Z.to_nat lines - Z.to_nat cols) [].
Proof.
  unfold make_grid. destruct (runtime.makeslice_ok 24 lines); cbn [bind]; [| discriminate].
  pose proof (New_rows_spec (Z.to_nat cols) cols [] (replicate (Z.to_nat lines) [])) as H.
  cbn [length app] in H. change (Z.of_nat 0) with 0 in H. rewrite H.
  rewrite length_replicate, drop_replicate. clear H.
  destruct (_ || _); [| discriminate].
  destruct (Z.to_nat cols <=? Z.to_nat lines)%nat; [| discriminate]. by intros [= <-].
Qed.

(** The grid of [New] for a header ["lines,cols"] with positive numbers
    within the limit of [make]. *)
Lemma New_grid_shape (lines cols : Z) :
  0 < lines -> 0 < cols ->
  24 * lines <= runtime.maxAlloc -> 8 * cols <= runtime.maxAlloc ->
  (g <- make_grid lines ;; New_rows (Z.to_nat cols) 0 cols g) =
    if cols <=? lines
    then Ret (replicate (Z.to_nat cols) (replicate (Z.to_nat cols) 0)
              ++ replicate (Z.to_nat (lines - cols)) [])
    else Panic IndexOutOfRange.
Proof.
  intros Hl Hc Hal Hac. rewrite New_grid_made by lia.
  destruct (cols <=? lines) eqn:E1.
  - assert ((Z.to_nat cols <=? Z.to_nat lines)%nat = true) as -> by (apply Nat.leb_le; blia).
    repeat f_equal. blia.
  - assert ((Z.to_nat cols <=? Z.to_nat lines)%nat = false) as -> by (apply Nat.leb_gt; blia).
    reflexivity.
Qed.

(** The bounds check of [insertPoints] lets through a row number equal to
    the number of rows, and the write that follows panics. *)
Lemma out_of_board_accepts_edge (board : Board) :
  grid board <> [] ->
  out_of_board board None None (Lines board) 0 = Ret false.
Proof.
  intros Hg. unfold out_of_board, Lines. cbn [is_err orb].
  destruct (Z.of_nat (length (grid board)) <? 0) eqn:E1; [blia |].
  rewrite Z.ltb_irrefl. cbn [orb].
  destruct (grid board) as [| row0 g]; [done |].
  rewrite (proj2 (index_Ret (row0 :: g) 0 row0)) by (split; [lia | reflexivity]).
  cbn [bind]. destruct (Z.of_nat (length row0) <? 0) eqn:E2; [blia | reflexivity].
Qed.

Lemma grid_set_edge_panics (g : list (list Z)) (col v : Z) :
  grid_set g (Z.of_nat (length g)) col v = Panic IndexOutOfRange.
Proof.
  unfold grid_set, index.
  destruct (in_bounds g (Z.of_nat (length g))) eqn:E; [| reflexivity].
  apply in_bounds_true in E. lia.
Qed.

(** * Part III: the claims *)

Example New_level33 : New (stream level33) = Ret (board33, None).
Proof. reflexivity. Qed.

(** ** C1 *)

(** C1, as stated, fails.  On the board of [level33], whose flow 0 is
    [(0,0); (2,2)], [ColorCell 0 0 1] succeeds although the spliced
    sequence [(0,0); (0,1); (2,2)] is not adjacent end to end: the pair
    made of the new point and the terminal point is not 4-adjacent. *)
Lemma C1_counterexample :
  ~ ((exists b', ColorCell board33 0 0 1 = Ret (b', None))
     <-> AreAllAjacent (spliced [(0, 0); (2, 2)] (0, 1)) = true).
Proof.
  intros [H _].
  assert (AreAllAjacent (spliced [(0, 0); (2, 2)] (0, 1)) = true) as Habs.
  { apply H. eexists. vm_compute. reflexivity. }
  vm_compute in Habs. discriminate.
Qed.

(** C1, amended.  For a board, a color index [k] in range whose flow is
    not empty, and an in-bounds unoccupied cell [(line, col)]:
    [ColorCell k line col] succeeds if and only if the flow's points but
    the last, followed by [(line, col)], are adjacent per [AreAllAjacent];
    otherwise it fails with the adjacency error, which carries that
    sequence.  The pair made of the new point and the preserved terminal
    point is not tested. *)
Theorem C1_ColorCell_accepts_iff_front_adjacent
    (b : Board) (k line col nc : Z) (flow : Color) (tail : Point) :
  0 <= k ->
  flows b !! Z.to_nat k = Some flow ->
  last flow = Some tail ->
  Z.of_nat (length flow) < Int.max_int ->
  0 <= line < Lines b ->
  Cols b = Ret nc ->
  0 <= col < nc ->
  Get b line col = Ret 0 ->
  ((exists b', ColorCell b k line col = Ret (b', None))
   <-> AreAllAjacent (removelast flow ++ [(line, col)]) = true)
  /\ (AreAllAjacent (removelast flow ++ [(line, col)]) = false ->
      ColorCell b k line col
      = Ret (b, Some (NotAjacent (removelast flow ++ [(line, col)])))).
Proof.
  intros Hk Hflow Hlast Hlen Hline Hcols Hcol Hcell.
  destruct (ColorCell_past_guards b k line col nc flow tail) as (g & _ & Heq); try done.
  rewrite Heq.
  destruct (AreAllAjacent (removelast flow ++ [(line, col)])).
  - split; [| done]. split; [done | eauto].
  - split; [| done]. split; [| done]. intros [b' [=]].
Qed.

Lemma C1_ColorCell_accepts_iff_front_adjacent_witness :
  ((exists b', ColorCell board33 0 0 1 = Ret (b', None))
   <-> AreAllAjacent (removelast [(0, 0); (2, 2)] ++ [(0, 1)]) = true)
  /\ (AreAllAjacent (removelast [(0, 0); (2, 2)] ++ [(0, 1)]) = false ->
      ColorCell board33 0 0 1
      = Ret (board33, Some (NotAjacent (removelast [(0, 0); (2, 2)] ++ [(0, 1)])))).
Proof.
  apply (C1_ColorCell_accepts_iff_front_adjacent board33 0 0 1 3 [(0, 0); (2, 2)] (2, 2)).
  - lia.
  - reflexivity.
  - reflexivity.
  - vm_compute. reflexivity.
  - vm_compute. split; [discriminate | reflexivity].
  - reflexivity.
  - lia.
  - reflexivity.
Defined.

(** ** C8 *)

(** C8.  Whenever [ColorCell] returns an error, whichever it is, the
    board it leaves is the board it was given: grid and flows are
    unchanged. *)
Theorem C8_ColorCell_error_leaves_board_unchanged
    (b b' : Board) (k line col : Z) (e : error) :
  ColorCell b k line col = Ret (b', Some e) ->
  grid b' = grid b /\ flows b' = flows b.
Proof.
  intros H. apply ColorCell_error in H as ->. done.
Qed.

Lemma C8_ColorCell_error_leaves_board_unchanged_witness :
  grid board33 = grid board33 /\ flows board33 = flows board33.
Proof.
  apply (C8_ColorCell_error_leaves_board_unchanged board33 board33 0 1 1
           (NotAjacent [(0, 0); (1, 1)])).
  vm_compute. reflexivity.
Defined.

(** ** C9 *)

(** C9.  After a successful [ColorCell k line col], flow [k] is the old
    flow with [(line, col)] inserted before its last point: its last
    point is the old last point and it is one point longer. *)
Theorem C9_ColorCell_preserves_terminal_point
    (b b' : Board) (k line col : Z) :
  ColorCell b k line col = Ret (b', None) ->
  exists flow flow' tail,
    flows b !! Z.to_nat k = Some flow /\
    flows b' !! Z.to_nat k = Some flow' /\
    last flow = Some tail /\
    last flow' = Some tail /\
    length flow' = S (length flow) /\
    flow' = removelast flow ++ [(line, col); tail].
Proof.
  intros H. apply ColorCell_success in H
    as (nc & flow & tail & g & Hk & Hflow & Hlast & _ & _ & _ & _ & _ & _ & _ & ->).
  exists flow, (removelast flow ++ [(line, col); tail]), tail. cbn [flows].
  split; [done |]. split.
  { apply list_lookup_insert_eq. eauto using lookup_lt_Some. }
  split; [done |]. split.
  { change [(line, col); tail] with ([(line, col)] ++ [tail]).
    rewrite app_assoc. apply last_snoc. }
  split; [| done].
  destruct flow as [| p flow _] using rev_ind; [discriminate |].
  rewrite removelast_last, !length_app. simpl. lia.
Qed.

Lemma C9_ColorCell_preserves_terminal_point_witness :
  exists flow flow' tail,
    flows board33 !! Z.to_nat 0 = Some flow /\
    flows (mkBoard [[1; 1; 0]; [0; 0; 0]; [0; 0; 1]] [[(0, 0); (0, 1); (2, 2)]])
      !! Z.to_nat 0 = Some flow' /\
    last flow = Some tail /\
    last flow' = Some tail /\
    length flow' = S (length flow) /\
    flow' = removelast flow ++ [(0, 1); tail].
Proof.
  apply (C9_ColorCell_preserves_terminal_point board33 _ 0 0 1).
  vm_compute. reflexivity.
Defined.

(** ** C10 *)

(** C10.  On every board a program can hold, built by [New] and changed
    by [ColorCell], each flow has at least two points; so [ColorCell]
    never runs into the slice-bounds panic of [c[:len(c)-1]], which needs
    an empty flow. *)
Theorem C10_flows_keep_two_points (b : Board) :
  reachable b ->
  at_least_two (flows b) /\
  forall k line col, ColorCell b k line col <> Panic SliceBoundsOutOfRange.
Proof.
  intros Hb. apply reachable_at_least_two in Hb. split; [done |].
  intros k line col H. apply ColorCell_slice_panic in H as [_ H].
  unfold at_least_two in Hb. rewrite Forall_lookup in Hb.
  specialize (Hb _ _ H). simpl in Hb. lia.
Qed.

Lemma C10_flows_keep_two_points_witness :
  at_least_two (flows board33) /\
  forall k line col, ColorCell board33 k line col <> Panic SliceBoundsOutOfRange.
Proof.
  apply (C10_flows_keep_two_points board33).
  apply (reachable_New (stream level33) board33 None). reflexivity.
Defined.

(** ** C2 *)

(** C2 fails on the code when [lines] differs from [cols]: the loop that
    allocates the rows runs [cols] times, not [lines] times.  With more
    columns than rows [New] panics; with more rows than columns the last
    rows stay nil and the grid is not a matrix.  (When both are equal the
    grid is the square matrix the claim describes.) *)
Theorem C2_New_allocates_cols_rows :
  New (stream ("2,3" +:+ nl)) = Panic IndexOutOfRange
  /\ New (stream ("3,2" +:+ nl)) = Ret (mkBoard [[0; 0]; [0; 0]; []] [], None)
  /\ ~ rectangular [[0; 0]; [0; 0]; []]
  /\ New (stream ("2,2" +:+ nl)) = Ret (mkBoard [[0; 0]; [0; 0]] [], None).
Proof.
  repeat split; try reflexivity.
  intros [cols H]. rewrite !Forall_cons in H. destruct H as (H1 & _ & H3 & _).
  simpl in H1, H3. congruence.
Qed.

(** ** C3 *)

(** C3 fails on the code: the bounds check compares with [>] where the
    claim needs [>=].  On a 2x2 grid the line ["2,0 0,0"], whose first
    row number equals [lines], passes the check and the write to
    [grid[2][0]] panics; so does the column number 2 of ["0,2 0,0"].  A
    line whose second point is refused has already written its first
    point to the grid. *)
Theorem C3_insertPoints_edge_coordinate_panics :
  insertPoints empty22 ("2,0 0,0" +:+ nl) 1 = Panic IndexOutOfRange
  /\ insertPoints empty22 ("0,2 0,0" +:+ nl) 1 = Panic IndexOutOfRange
  /\ New (stream ("2,2" +:+ nl +:+ "2,0 0,0" +:+ nl)) = Panic IndexOutOfRange
  /\ insertPoints empty22 ("0,0 5,5" +:+ nl) 1
     = Ret (mkBoard [[1; 0]; [0; 0]] [], Some BadLineFormat).
Proof. repeat split; reflexivity. Qed.

(** ** C4 *)

(** C4 fails on the code: after a well-formed header [New] ends with
    [return board, nil].  A flow line with one token, a point with one
    coordinate, a coordinate that is not a number and a coordinate out of
    the grid all make [insertPoints] return its format error, and [New]
    returns [nil] all the same. *)
Theorem C4_New_drops_format_errors :
  insertPoints empty22 ("0,0" +:+ nl) 1 = Ret (empty22, Some BadLineFormat)
  /\ New (stream ("2,2" +:+ nl +:+ "0,0" +:+ nl)) = Ret (empty22, None)
  /\ New (stream ("2,2" +:+ nl +:+ "0 1,1" +:+ nl)) = Ret (empty22, None)
  /\ New (stream ("2,2" +:+ nl +:+ "a,0 1,1" +:+ nl)) = Ret (empty22, None)
  /\ New (stream ("2,2" +:+ nl +:+ "5,5 1,1" +:+ nl)) = Ret (empty22, None).
Proof. repeat split; reflexivity. Qed.

(** ** C5 *)

(** C5 fails on the code: a blank line is read as a lone newline, which
    [insertPoints] refuses, and the loop of [New] stops there.  The flow
    line after the blank line is not registered; without the blank line
    it is. *)
Theorem C5_New_stops_at_blank_line :
  New (stream ("2,2" +:+ nl +:+ nl +:+ "0,0 0,1" +:+ nl)) = Ret (empty22, None)
  /\ New (stream ("2,2" +:+ nl +:+ "0,0 0,1" +:+ nl))
     = Ret (mkBoard [[1; 1]; [0; 0]] [[(0, 0); (0, 1)]], None).
Proof. split; reflexivity. Qed.

(** ** C6 *)

(** C6.  Parsing the 2x2 level of the round-trip scenario gives a board
    of 2 lines and 2 columns with two flows, cells (0,0) and (1,1)
    holding 1, cells (0,1) and (1,0) holding 2, and [Solved] answers
    false: the grid is full but the two points of each flow are not
    adjacent. *)
Theorem C6_round_trip_scenario :
  exists b,
    New (stream level22) = Ret (b, None)
    /\ Lines b = 2 /\ Cols b = Ret 2
    /\ length (flows b) = 2%nat
    /\ Get b 0 0 = Ret 1 /\ Get b 1 1 = Ret 1
    /\ Get b 0 1 = Ret 2 /\ Get b 1 0 = Ret 2
    /\ grid_full (grid b) = true
    /\ Forall (fun flow => AreAllAjacent flow = false) (flows b)
    /\ AreAjacent (0, 0) (1, 1) = false /\ AreAjacent (0, 1) (1, 0) = false
    /\ Solved b = Ret false.
Proof.
  exists board22. repeat split; try reflexivity.
  repeat constructor.
Qed.

(** ** C7 *)

(** On a board whose grid is a matrix, [Solved] returns, and returns true
    if and only if every cell of the grid holds a non-zero value and every
    flow satisfies [AreAllAjacent]. *)
Lemma Solved_iff_full_and_adjacent (b : Board) :
  rectangular (grid b) ->
  exists v,
    Solved b = Ret v
    /\ (v = true <->
        Forall (Forall (fun cell => cell <> 0)) (grid b)
        /\ Forall (fun flow => AreAllAjacent flow = true) (flows b)).
Proof.
  intros Hrect. eexists. split; [by apply Solved_rectangular |].
  unfold grid_full. rewrite andb_true_iff, !forallb_forall, !Forall_forall.
  split.
  - intros [Hg Hf]. split.
    + intros row Hrow. apply list_elem_of_In, Hg in Hrow.
      rewrite forallb_forall in Hrow. apply Forall_forall. intros cell Hcell.
      apply list_elem_of_In, Hrow in Hcell. blia.
    + intros flow Hflow. apply Hf. by apply list_elem_of_In.
  - intros [Hg Hf]. split.
    + intros row Hrow. apply list_elem_of_In, Hg in Hrow.
      rewrite Forall_forall in Hrow. apply forallb_forall. intros cell Hcell.
      apply list_elem_of_In, Hrow in Hcell. apply negb_true_iff, Z.eqb_neq. done.
    + intros flow Hflow. apply Hf. by apply list_elem_of_In.
Qed.

(** C7.  [Solved] does not answer on every board state.  The level of
    three lines and two columns with the flows (0,0)-(0,1) and
    (1,0)-(1,1) is read by [New] without an error; the loop of [New] that
    makes the rows stops after two of them (its bound is [cols]), so the
    third row has no cell.  On the board returned every cell holds a
    non-zero value and every flow satisfies [AreAllAjacent], and [Solved]
    panics at [b.grid[2][0]] instead of returning true. *)
Theorem C7_Solved_panics_on_ragged_board :
  exists b,
    New (stream ("3,2" +:+ nl +:+ "0,0 0,1" +:+ nl +:+ "1,0 1,1" +:+ nl)) = Ret (b, None)
    /\ grid b = [[1; 1]; [2; 2]; []]
    /\ Forall (Forall (fun cell => cell <> 0)) (grid b)
    /\ Forall (fun flow => AreAllAjacent flow = true) (flows b)
    /\ Solved b = Panic IndexOutOfRange.
Proof.
  exists (mkBoard [[1; 1]; [2; 2]; []] [[(0, 0); (0, 1)]; [(1, 0); (1, 1)]]).
  repeat split; try reflexivity; cbn [grid flows]; repeat constructor; discriminate.
Qed.

(** * Part IV: further properties of the package *)

(** ** Adjacency *)

Lemma wrap_mod z : Int.wrap z mod 2 ^ 64 = z mod 2 ^ 64.
Proof.
  unfold Int.wrap.
  rewrite <- Zminus_mod_idemp_l, Z.mod_mod by lia.
  rewrite Zminus_mod_idemp_l. f_equal. lia.
Qed.

Lemma wrap_congr a b : a mod 2 ^ 64 = b mod 2 ^ 64 -> Int.wrap a = Int.wrap b.
Proof.
  intros H. unfold Int.wrap.
  rewrite <- (Zplus_mod_idemp_l a), <- (Zplus_mod_idemp_l b), H. reflexivity.
Qed.

(** The square of a wrapped difference does not depend on the order of
    the operands. *)
Lemma mul_sub_sym a b :
  Int.mul (Int.sub a b) (Int.sub a b) = Int.mul (Int.sub b a) (Int.sub b a).
Proof.
  unfold Int.mul, Int.sub. apply wrap_congr.
  rewrite (Zmult_mod (Int.wrap (a - b))), (Zmult_mod (Int.wrap (b - a))), !wrap_mod.
  rewrite <- !Zmult_mod. f_equal. lia.
Qed.

(** X1.  [AreAjacent] is symmetric, for all values of its operands, also
    those on which the subtractions and multiplications wrap around. *)
Theorem AreAjacent_sym (p q : Point) : AreAjacent p q = AreAjacent q p.
Proof.
  unfold AreAjacent. cbv zeta.
  rewrite (mul_sub_sym (fst p) (fst q)), (mul_sub_sym (snd p) (snd q)). reflexivity.
Qed.

Lemma wrap_small z : - 2 ^ 63 <= z < 2 ^ 63 -> Int.wrap z = z.
Proof.
  intros H. apply wrap_in_range. unfold Int.in_range, Int.min_int, Int.max_int. lia.
Qed.

Lemma unit_square_sum (dx dy : Z) :
  dx * dx + dy * dy = 1 <-> Z.abs dx + Z.abs dy = 1.
Proof.
  split; intros H.
  - assert (-1 <= dx <= 1) by nia. assert (-1 <= dy <= 1) by nia.
    assert (dx = -1 \/ dx = 0 \/ dx = 1) as [-> | [-> | ->]] by lia;
      assert (dy = -1 \/ dy = 0 \/ dy = 1) as [-> | [-> | ->]] by lia; lia.
  - assert (-1 <= dx <= 1) by lia. assert (-1 <= dy <= 1) by lia.
    assert (dx = -1 \/ dx = 0 \/ dx = 1) as [-> | [-> | ->]] by lia;
      assert (dy = -1 \/ dy = 0 \/ dy = 1) as [-> | [-> | ->]] by lia; lia.
Qed.

(** X2.  For two points whose coordinates differ by less than 2^31,
    [AreAjacent] holds exactly when they are one step apart along one
    axis: the squared distance is 1. *)
Theorem AreAjacent_unit_step (p q : Point) :
  - 2 ^ 31 < fst p - fst q < 2 ^ 31 ->
  - 2 ^ 31 < snd p - snd q < 2 ^ 31 ->
  (AreAjacent p q = true <-> Z.abs (fst p - fst q) + Z.abs (snd p - snd q) = 1).
Proof.
  intros Hx Hy. unfold AreAjacent. cbv zeta. unfold Int.sub, Int.mul, Int.add.
  set (dx := fst p - fst q) in *. set (dy := snd p - snd q) in *.
  rewrite (wrap_small dx), (wrap_small dy) by lia.
  assert (0 <= dx * dx < 2 ^ 62) by nia. assert (0 <= dy * dy < 2 ^ 62) by nia.
  rewrite (wrap_small (dx * dx)), (wrap_small (dy * dy)), wrap_small by lia.
  rewrite <- unit_square_sum.
  destruct (1 <? dx * dx) eqn:E1; cbn [orb].
  { split; [discriminate | blia]. }
  destruct (1 <? dy * dy) eqn:E2; cbn [orb].
  { split; [discriminate | blia]. }
  destruct (dx * dx + dy * dy =? 1) eqn:E3; cbn [negb]; split; try done; blia.
Qed.

Lemma AreAjacent_unit_step_witness :
  AreAjacent (3, 4) (3, 5) = true <-> Z.abs (fst (3, 4) - fst (3, 5)) + Z.abs (snd (3, 4) - snd (3, 5)) = 1.
Proof.
  apply (AreAjacent_unit_step (3, 4) (3, 5)); simpl; lia.
Defined.

(** Beyond that range the multiplications wrap: these two points are far
    apart and [AreAjacent] holds. *)
Example AreAjacent_wraps : AreAjacent (0, 0) (2 ^ 32, 1) = true.
Proof. reflexivity. Qed.

(** ** [AreAllAjacent] *)

(** X3.  [AreAllAjacent] holds exactly when every point of the flow is
    adjacent to the next one; a flow of no or one point passes. *)
Theorem AreAllAjacent_consecutive (c : Color) :
  AreAllAjacent c = true <->
  forall (i : nat) (p q : Point),
    c !! i = Some p -> c !! S i = Some q -> AreAjacent p q = true.
Proof.
  induction c as [| p [| q c] IH].
  - split; [intros _ i p q H; discriminate | done].
  - split; [intros _ [| i] p' q Hp Hq; discriminate | done].
  - cbn [AreAllAjacent]. destruct (AreAjacent p q) eqn:E; cbn [negb].
    + rewrite IH. split.
      * intros H [| i] p' q' Hp Hq.
        -- injection Hp as <-. injection Hq as <-. done.
        -- apply (H i); done.
      * intros H i p' q' Hp Hq. apply (H (S i)); done.
    + split; [discriminate |]. intros H.
      rewrite <- E. apply (H 0%nat); reflexivity.
Qed.

(** Adding a point at the end: the flow must be adjacent and the new point
    adjacent to its last point. *)
Lemma AreAllAjacent_snoc (c : Color) (p : Point) :
  AreAllAjacent (c ++ [p]) =
  AreAllAjacent c && match last c with Some q => AreAjacent q p | None => true end.
Proof.
  induction c as [| a c IH]; [reflexivity |].
  destruct c as [| b c].
  - cbn. by destruct (AreAjacent a p).
  - change (last (a :: b :: c)) with (last (b :: c)).
    simpl app in *. cbn [AreAllAjacent] in *. rewrite IH.
    by destruct (AreAjacent a b).
Qed.

(** ** [AjacentToAny] *)

(** X5.  [AjacentToAny point c] holds exactly when some point of [c] is
    adjacent to [point]; no point is adjacent to any of an empty flow. *)
Theorem AjacentToAny_exists (point : Point) (c : Color) :
  AjacentToAny point c = true <-> exists p, In p c /\ AreAjacent p point = true.
Proof.
  induction c as [| p c IH]; cbn [AjacentToAny].
  - split; [discriminate | intros (p & [] & _)].
  - destruct (AreAjacent p point) eqn:E.
    + split; [intros _; exists p; split; [by left | done] | done].
    + rewrite IH. split.
      * intros (p' & Hin & H). exists p'. split; [by right | done].
      * intros (p' & [<- | Hin] & H); [congruence | eauto].
Qed.

(** ** [ColorCell]: what a successful call changes *)

(** X4.  For a call that passes the four guards, on a flow that is not
    empty: the cell is accepted exactly when the flow without its
    terminal point is adjacent throughout and the cell is adjacent to the
    last point of that part, if there is one. *)
Theorem ColorCell_accepts_next_to_frontier
    (b : Board) (k line col nc : Z) (flow : Color) (tail : Point) :
  0 <= k ->
  flows b !! Z.to_nat k = Some flow ->
  last flow = Some tail ->
  Z.of_nat (length flow) < Int.max_int ->
  0 <= line < Lines b ->
  Cols b = Ret nc ->
  0 <= col < nc ->
  Get b line col = Ret 0 ->
  ((exists b', ColorCell b k line col = Ret (b', None)) <->
   AreAllAjacent (removelast flow) = true /\
   forall q, last (removelast flow) = Some q -> AreAjacent q (line, col) = true).
Proof.
  intros Hk Hflow Hlast Hlen Hline Hcols Hcol Hcell.
  destruct (ColorCell_past_guards b k line col nc flow tail) as (g & _ & ->); try done.
  rewrite AreAllAjacent_snoc.
  destruct (AreAllAjacent (removelast flow)); cbn [andb].
  - destruct (last (removelast flow)) as [q |].
    + destruct (AreAjacent q (line, col)) eqn:E.
      * split; [intros _; split; [done | by intros ? [= <-]] | eauto].
      * split; [intros [b' [=]] | intros [_ H]; specialize (H q eq_refl); congruence].
    + split; [done | eauto].
  - split; [intros [b' [=]] | intros [[=] _]].
Qed.

Lemma ColorCell_accepts_next_to_frontier_witness :
  (exists b', ColorCell board33 0 0 1 = Ret (b', None)) <->
  AreAllAjacent (removelast [(0, 0); (2, 2)]) = true /\
  forall q, last (removelast [(0, 0); (2, 2)]) = Some q -> AreAjacent q (0, 1) = true.
Proof.
  apply (ColorCell_accepts_next_to_frontier board33 0 0 1 3 [(0, 0); (2, 2)] (2, 2)).
  - lia.
  - reflexivity.
  - reflexivity.
  - vm_compute. reflexivity.
  - vm_compute. split; [discriminate | reflexivity].
  - reflexivity.
  - lia.
  - reflexivity.
Defined.

(** Reading a grid after one cell has been written. *)
Lemma Get_after_grid_set (g g' : list (list Z)) (fl fl' : list Color) (line col v l c : Z) :
  grid_set g line col v = Ret g' ->
  Get (mkBoard g' fl') l c =
    if (l =? line) && (c =? col) then Ret v else Get (mkBoard g fl) l c.
Proof.
  unfold grid_set, Get. cbn [grid]. intros H.
  apply bind_Ret in H as (row & Hrow & H). apply bind_Ret in H as (row' & Hrow' & H).
  apply index_Ret in Hrow as [Hl Hrow].
  apply set_index_Ret in Hrow' as [Hc ->]. apply set_index_Ret in H as [Hl' ->].
  unfold index, in_bounds. rewrite !length_insert.
  destruct (l =? line) eqn:El.
  - apply Z.eqb_eq in El as ->.
    destruct ((0 <=? line) && (line <? Z.of_nat (length g))) eqn:B; [| blia].
    rewrite list_lookup_insert_eq by lia. rewrite Hrow. cbn [bind andb].
    rewrite length_insert.
    destruct (c =? col) eqn:Ec.
    + apply Z.eqb_eq in Ec as ->.
      destruct ((0 <=? col) && (col <? Z.of_nat (length row))) eqn:B'; [| blia].
      by rewrite list_lookup_insert_eq by lia.
    + destruct ((0 <=? c) && (c <? Z.of_nat (length row))) eqn:B'; [| reflexivity].
      rewrite list_lookup_insert_ne by blia. reflexivity.
  - cbn [andb].
    destruct ((0 <=? l) && (l <? Z.of_nat (length g))) eqn:B; [| reflexivity].
    rewrite list_lookup_insert_ne by blia. reflexivity.
Qed.

(** X6.  A successful [ColorCell k line col] writes [k + 1] to the cell,
    leaves every other cell as it was, and leaves every other flow, and
    the number of flows, as they were. *)
Theorem ColorCell_changes_one_cell_one_flow (b b' : Board) (k line col : Z) :
  ColorCell b k line col = Ret (b', None) ->
  Get b' line col = Ret (Int.add k 1)
  /\ (forall l c, (l, c) <> (line, col) -> Get b' l c = Get b l c)
  /\ (forall k', k' <> Z.to_nat k -> flows b' !! k' = flows b !! k')
  /\ length (flows b') = length (flows b).
Proof.
  intros H. apply ColorCell_success in H
    as (nc & flow & tail & g & Hk & Hflow & Hlast & _ & _ & _ & _ & _ & _ & Hg & ->).
  destruct b as [g0 fl0]. cbn [grid flows] in *.
  split; [| split; [| split]].
  - rewrite (Get_after_grid_set g0 g fl0 _ line col _ line col Hg).
    by rewrite !Z.eqb_refl.
  - intros l c Hne. rewrite (Get_after_grid_set g0 g fl0 _ line col _ l c Hg).
    destruct ((l =? line) && (c =? col)) eqn:E; [| reflexivity].
    exfalso. apply Hne. f_equal; blia.
  - intros k' Hk'. by apply list_lookup_insert_ne.
  - apply length_insert.
Qed.

Lemma ColorCell_changes_one_cell_one_flow_witness :
  Get (mkBoard [[1; 1; 0]; [0; 0; 0]; [0; 0; 1]] [[(0, 0); (0, 1); (2, 2)]]) 0 1
  = Ret (Int.add 0 1)
  /\ (forall l c, (l, c) <> (0, 1) ->
      Get (mkBoard [[1; 1; 0]; [0; 0; 0]; [0; 0; 1]] [[(0, 0); (0, 1); (2, 2)]]) l c
      = Get board33 l c)
  /\ (forall k', k' <> Z.to_nat 0 ->
      flows (mkBoard [[1; 1; 0]; [0; 0; 0]; [0; 0; 1]] [[(0, 0); (0, 1); (2, 2)]]) !! k'
      = flows board33 !! k')
  /\ length (flows (mkBoard [[1; 1; 0]; [0; 0; 0]; [0; 0; 1]] [[(0, 0); (0, 1); (2, 2)]]))
     = length (flows board33).
Proof.
  apply (ColorCell_changes_one_cell_one_flow board33 _ 0 0 1).
  vm_compute. reflexivity.
Defined.

Lemma grid_set_layout (g g' : list (list Z)) (line col v : Z) :
  grid_set g line col v = Ret g' -> map length g' = map length g.
Proof.
  unfold grid_set. intros H.
  apply bind_Ret in H as (row & Hrow & H). apply bind_Ret in H as (row' & Hrow' & H).
  apply index_Ret in Hrow as [Hl Hrow].
  apply set_index_Ret in Hrow' as [Hc ->]. apply set_index_Ret in H as [Hl' ->].
  change (map length) with (fmap (M := list) (length (A := Z))).
  rewrite list_fmap_insert, length_insert.
  apply list_insert_id. by rewrite list_lookup_fmap, Hrow.
Qed.

Lemma Lines_layout (b b' : Board) :
  map length (grid b') = map length (grid b) -> Lines b' = Lines b.
Proof.
  intros H. unfold Lines. f_equal.
  rewrite <- (length_map length (grid b')), H. apply length_map.
Qed.

Lemma Cols_layout (b b' : Board) :
  map length (grid b') = map length (grid b) -> Cols b' = Cols b.
Proof.
  intros H. unfold Cols.
  destruct (grid b') as [| r' g'], (grid b) as [| r g]; try discriminate; [reflexivity |].
  injection H as H _.
  rewrite !(proj2 (index_Ret (_ :: _) 0 _)) by (split; [lia | reflexivity]).
  cbn [bind]. by rewrite H.
Qed.

Lemma ColorCell_layout (b b' : Board) (k line col : Z) (e : option error) :
  ColorCell b k line col = Ret (b', e) ->
  map length (grid b') = map length (grid b).
Proof.
  intros H. destruct e as [e |].
  - by apply ColorCell_error in H as ->.
  - apply ColorCell_success in H
      as (nc & flow & tail & g & _ & _ & _ & _ & _ & _ & _ & _ & _ & Hg & ->).
    cbn [grid]. eauto using grid_set_layout.
Qed.

Lemma ColorCell_written (b b' : Board) (k line col : Z) :
  ColorCell b k line col = Ret (b', None) -> Get b' line col = Ret (Int.add k 1).
Proof.
  intros H. apply ColorCell_success in H
    as (nc & flow & tail & g & _ & _ & _ & _ & _ & _ & _ & _ & _ & Hg & ->).
  destruct b as [g0 fl0]. cbn [grid flows] in *.
  rewrite (Get_after_grid_set g0 g fl0 _ line col _ line col Hg).
  by rewrite !Z.eqb_refl.
Qed.

(** X7.  [ColorCell] never changes the layout of the grid: whatever it
    returns, every row keeps its length, so [Lines] and [Cols] answer as
    before. *)
Theorem ColorCell_keeps_grid_layout (b b' : Board) (k line col : Z) (e : option error) :
  ColorCell b k line col = Ret (b', e) ->
  map length (grid b') = map length (grid b)
  /\ Lines b' = Lines b
  /\ Cols b' = Cols b.
Proof.
  intros H. apply ColorCell_layout in H. eauto using Lines_layout, Cols_layout.
Qed.

Lemma ColorCell_keeps_grid_layout_witness :
  map length (grid (mkBoard [[1; 1; 0]; [0; 0; 0]; [0; 0; 1]] [[(0, 0); (0, 1); (2, 2)]]))
  = map length (grid board33)
  /\ Lines (mkBoard [[1; 1; 0]; [0; 0; 0]; [0; 0; 1]] [[(0, 0); (0, 1); (2, 2)]])
     = Lines board33
  /\ Cols (mkBoard [[1; 1; 0]; [0; 0; 0]; [0; 0; 1]] [[(0, 0); (0, 1); (2, 2)]])
     = Cols board33.
Proof.
  apply (ColorCell_keeps_grid_layout board33 _ 0 0 1 None).
  vm_compute. reflexivity.
Defined.

(** The value [ColorCell] writes for a color index that is an [int]. *)
Lemma color_value_nonzero (k : Z) : 0 <= k -> Int.in_range k -> Int.add k 1 <> 0.
Proof.
  unfold Int.in_range, Int.max_int, Int.add. intros Hk Hr.
  destruct (Z.eq_dec k (2 ^ 63 - 1)) as [-> | Hne].
  - vm_compute. discriminate.
  - rewrite wrap_small by lia. lia.
Qed.

(** X8.  Once [ColorCell] has colored a cell, a later call for the same
    cell, with any color index in range, is refused as occupied and
    leaves the board as it is. *)
Theorem ColorCell_twice_is_occupied (b b' : Board) (k k2 line col : Z) :
  Int.in_range k ->
  ColorCell b k line col = Ret (b', None) ->
  0 <= k2 < Z.of_nat (length (flows b')) ->
  ColorCell b' k2 line col = Ret (b', Some CellOccupied).
Proof.
  intros Hr H Hk2.
  pose proof (ColorCell_written b b' k line col H) as Hget.
  pose proof (ColorCell_layout b b' k line col None H) as Hlay.
  pose proof (Lines_layout b b' Hlay) as HL. pose proof (Cols_layout b b' Hlay) as HC.
  apply ColorCell_success in H
    as (nc & flow & tail & g & Hk & _ & _ & _ & Hline & Hcols & Hcol & _ & _ & _ & _).
  rewrite ColorCell_value_eq. unfold ColorCell_value.
  destruct ((k2 <? 0) || (Z.of_nat (length (flows b')) <=? k2)) eqn:E1; [blia |].
  rewrite HL. destruct ((line <? 0) || (Lines b <=? line)) eqn:E2; [blia |].
  rewrite HC, Hcols. cbn [bind].
  destruct ((col <? 0) || (nc <=? col)) eqn:E3; [blia |].
  rewrite Hget. cbn [bind].
  destruct (Int.add k 1 =? 0) eqn:E4; [| reflexivity].
  apply Z.eqb_eq in E4. by apply color_value_nonzero in E4.
Qed.

Lemma ColorCell_twice_is_occupied_witness :
  ColorCell (mkBoard [[1; 1; 0]; [0; 0; 0]; [0; 0; 1]] [[(0, 0); (0, 1); (2, 2)]]) 0 0 1
  = Ret (mkBoard [[1; 1; 0]; [0; 0; 0]; [0; 0; 1]] [[(0, 0); (0, 1); (2, 2)]],
         Some CellOccupied).
Proof.
  apply (ColorCell_twice_is_occupied board33 _ 0 0 0 1).
  - vm_compute. split; discriminate.
  - vm_compute. reflexivity.
  - simpl. lia.
Defined.

(** ** [ColorCell] and the free cells *)

Lemma free_cells_app (g1 g2 : list (list Z)) :
  free_cells (g1 ++ g2) = (free_cells g1 + free_cells g2)%nat.
Proof. unfold free_cells. by rewrite concat_app, List.filter_app, length_app. Qed.

Lemma free_cells_write (g : list (list Z)) (row : list Z) (i j : nat) (v : Z) :
  g !! i = Some row -> row !! j = Some 0 -> v <> 0 ->
  (free_cells (<[i := <[j := v]> row]> g) + 1 = free_cells g)%nat.
Proof.
  intros Hrow Hcell Hv.
  rewrite <- (take_drop_middle g i row Hrow) at 2.
  rewrite insert_take_drop by eauto using lookup_lt_Some.
  rewrite !free_cells_app.
  change (?r :: drop (S i) g) with ([r] ++ drop (S i) g). rewrite !free_cells_app.
  assert (free_cells [<[j := v]> row] + 1 = free_cells [row])%nat as Hone; [| lia].
  unfold free_cells. cbn [concat]. rewrite !app_nil_r.
  rewrite <- (take_drop_middle row j 0 Hcell) at 2.
  rewrite insert_take_drop by eauto using lookup_lt_Some.
  rewrite !List.filter_app, !length_app. cbn [List.filter].
  destruct (v =? 0) eqn:E; [blia |]. cbn. lia.
Qed.

(** X9.  Every successful [ColorCell], for a color index that is an
    [int], uses up exactly one free cell of the grid. *)
Theorem ColorCell_uses_one_free_cell (b b' : Board) (k line col : Z) :
  Int.in_range k ->
  ColorCell b k line col = Ret (b', None) ->
  (free_cells (grid b') + 1 = free_cells (grid b))%nat.
Proof.
  intros Hr H. apply ColorCell_success in H
    as (nc & flow & tail & g & Hk & _ & _ & _ & _ & _ & _ & Hget & _ & Hg & ->).
  cbn [grid].
  destruct (grid_set_of_Get b line col 0 (Int.add k 1) Hget) as (row & Hrow & Hset).
  rewrite Hset in Hg. injection Hg as <-.
  unfold Get in Hget. apply bind_Ret in Hget as (row' & Hrow' & Hcell).
  apply index_Ret in Hrow' as [_ Hrow']. rewrite Hrow in Hrow'. injection Hrow' as <-.
  apply index_Ret in Hcell as [_ Hcell].
  apply free_cells_write; auto using color_value_nonzero.
Qed.

Lemma ColorCell_uses_one_free_cell_witness :
  Nat.add (free_cells (grid (mkBoard [[1; 1; 0]; [0; 0; 0]; [0; 0; 1]]
                               [[(0, 0); (0, 1); (2, 2)]]))) 1%nat
  = free_cells (grid board33).
Proof.
  apply (ColorCell_uses_one_free_cell board33 _ 0 0 1).
  - vm_compute. split; discriminate.
  - vm_compute. reflexivity.
Defined.

(** ** [ColorCell]: which error for which argument *)

Lemma ColorCell_ColorIndexOutOfRange (b b' : Board) (k line col : Z) :
  ColorCell b k line col = Ret (b', Some ColorIndexOutOfRange)
  <-> b' = b /\ ~ 0 <= k < Z.of_nat (length (flows b)).
Proof.
  rewrite ColorCell_value_eq. unfold ColorCell_value. split.
  - intros H. repeat step H; try discriminate; injection H as <-. split; [done | blia].
  - intros [-> Hk].
    destruct ((k <? 0) || (Z.of_nat (length (flows b)) <=? k)) eqn:E1; [done | blia].
Qed.

Lemma ColorCell_XOutOfRange (b b' : Board) (k line col : Z) :
  ColorCell b k line col = Ret (b', Some XOutOfRange)
  <-> b' = b /\ 0 <= k < Z.of_nat (length (flows b)) /\ ~ 0 <= line < Lines b.
Proof.
  rewrite ColorCell_value_eq. unfold ColorCell_value. split.
  - intros H. repeat step H; try discriminate; injection H as <-.
    split; [done | blia].
  - intros (-> & Hk & Hl).
    destruct ((k <? 0) || (Z.of_nat (length (flows b)) <=? k)) eqn:E1; [blia |].
    destruct ((line <? 0) || (Lines b <=? line)) eqn:E2; [done | blia].
Qed.

Lemma ColorCell_YOutOfRange (b b' : Board) (k line col : Z) :
  ColorCell b k line col = Ret (b', Some YOutOfRange)
  <-> b' = b /\ 0 <= k < Z.of_nat (length (flows b)) /\ 0 <= line < Lines b /\
      exists nc, Cols b = Ret nc /\ ~ 0 <= col < nc.
Proof.
  rewrite ColorCell_value_eq. unfold ColorCell_value. split.
  - intros H. repeat step H; try discriminate; injection H as <-.
    split; [done |]. split; [blia |]. split; [blia |]. eexists. split; [done | blia].
  - intros (-> & Hk & Hl & nc & -> & Hc).
    destruct ((k <? 0) || (Z.of_nat (length (flows b)) <=? k)) eqn:E1; [blia |].
    destruct ((line <? 0) || (Lines b <=? line)) eqn:E2; [blia |]. cbn [bind].
    destruct ((col <? 0) || (nc <=? col)) eqn:E3; [done | blia].
Qed.

Lemma ColorCell_CellOccupied (b b' : Board) (k line col : Z) :
  ColorCell b k line col = Ret (b', Some CellOccupied)
  <-> b' = b /\ 0 <= k < Z.of_nat (length (flows b)) /\ 0 <= line < Lines b /\
      exists nc v, Cols b = Ret nc /\ 0 <= col < nc /\ Get b line col = Ret v /\ v <> 0.
Proof.
  rewrite ColorCell_value_eq. unfold ColorCell_value. split.
  - intros H. repeat step H; try discriminate; injection H as <-.
    split; [done |]. split; [blia |]. split; [blia |].
    eexists _, _. split; [done |]. split; [blia |]. split; [done | blia].
  - intros (-> & Hk & Hl & nc & v & -> & Hc & -> & Hv).
    destruct ((k <? 0) || (Z.of_nat (length (flows b)) <=? k)) eqn:E1; [blia |].
    destruct ((line <? 0) || (Lines b <=? line)) eqn:E2; [blia |]. cbn [bind].
    destruct ((col <? 0) || (nc <=? col)) eqn:E3; [blia |].
    destruct (negb (v =? 0)) eqn:E4; [done | blia].
Qed.

(** X10.  The guards of [ColorCell] are tried in this order: color
    index, line, column, occupied cell.  Each error is returned exactly for
    the arguments that pass the earlier guards and fail its own, and the
    board is then left as it is. *)
Theorem ColorCell_guard_errors (b b' : Board) (k line col : Z) :
  let k_ok := 0 <= k < Z.of_nat (length (flows b)) in
  let line_ok := 0 <= line < Lines b in
  (ColorCell b k line col = Ret (b', Some ColorIndexOutOfRange)
   <-> b' = b /\ ~ k_ok)
  /\ (ColorCell b k line col = Ret (b', Some XOutOfRange)
      <-> b' = b /\ k_ok /\ ~ line_ok)
  /\ (ColorCell b k line col = Ret (b', Some YOutOfRange)
      <-> b' = b /\ k_ok /\ line_ok /\
          exists nc, Cols b = Ret nc /\ ~ 0 <= col < nc)
  /\ (ColorCell b k line col = Ret (b', Some CellOccupied)
      <-> b' = b /\ k_ok /\ line_ok /\
          exists nc v, Cols b = Ret nc /\ 0 <= col < nc /\
                       Get b line col = Ret v /\ v <> 0).
Proof.
  cbv zeta.
  auto using ColorCell_ColorIndexOutOfRange, ColorCell_XOutOfRange,
    ColorCell_YOutOfRange, ColorCell_CellOccupied.
Qed.

(** ** [ColorCell] does not panic on a well-formed board *)

(** A cell inside a matrix can be read. *)
Lemma Get_matrix (b : Board) (cols : nat) (line col : Z) :
  Forall (fun row => length row = cols) (grid b) ->
  0 <= line < Lines b -> 0 <= col < Z.of_nat cols ->
  exists v, Get b line col = Ret v.
Proof.
  intros Hrect Hline Hcol. unfold Get, Lines in *.
  destruct (index_in_bounds (grid b) line) as (row & -> & Hrow);
    [apply in_bounds_true; lia |]. cbn [bind].
  rewrite Forall_lookup in Hrect. specialize (Hrect _ _ Hrow).
  destruct (index_in_bounds row col) as (v & -> & _); [apply in_bounds_true; lia |].
  eauto.
Qed.

(** X11.  On a board whose grid is a matrix and whose flows are not
    empty (and shorter than the largest [int]), [ColorCell] returns for
    all arguments: it never panics. *)
Theorem ColorCell_returns_on_matrix (b : Board) (k line col : Z) :
  rectangular (grid b) ->
  Forall (fun flow => flow <> [] /\ Z.of_nat (length flow) < Int.max_int) (flows b) ->
  exists b' e, ColorCell b k line col = Ret (b', e).
Proof.
  intros [cols Hrect] Hflows. rewrite ColorCell_value_eq. unfold ColorCell_value.
  destruct ((k <? 0) || (Z.of_nat (length (flows b)) <=? k)) eqn:E1; [eauto |].
  destruct ((line <? 0) || (Lines b <=? line)) eqn:E2; [eauto |].
  rewrite (Cols_matrix b cols Hrect).
  2:{ intros Hg. unfold Lines in E2. rewrite Hg in E2. simpl in E2. blia. }
  cbn [bind].
  destruct ((col <? 0) || (Z.of_nat cols <=? col)) eqn:E3; [eauto |].
  destruct (Get_matrix b cols line col Hrect) as [v Hv]; [blia | blia |].
  rewrite Hv. cbn [bind].
  destruct (negb (v =? 0)) eqn:E4; [eauto |].
  assert (v = 0) as -> by blia.
  destruct (index_in_bounds (flows b) k) as (flow & -> & Hflow);
    [apply in_bounds_true; blia |]. cbn [bind].
  rewrite Forall_lookup in Hflows. destruct (Hflows _ _ Hflow) as [Hne Hlen].
  destruct (Int.max_int <=? Z.of_nat (length flow)) eqn:E5; [blia |].
  destruct flow as [| t init _] using rev_ind; [done |].
  rewrite last_snoc. cbv zeta.
  destruct (negb (AreAllAjacent _)); [eauto |].
  destruct (grid_set_of_Get b line col 0 (Int.add k 1) Hv) as (row & _ & ->).
  cbn [bind]. eauto.
Qed.

Lemma ColorCell_returns_on_matrix_witness :
  exists b' e, ColorCell board33 0 1 1 = Ret (b', e).
Proof.
  apply (ColorCell_returns_on_matrix board33 0 1 1).
  - exists 3%nat. simpl. repeat constructor.
  - simpl. constructor; [split; [discriminate | vm_compute; reflexivity] | constructor].
Defined.

(** ** [Solved] and [ColorCell] *)

Lemma for_loop_None {R} (n : nat) (lo : Z) (body : Z -> result (option R)) :
  for_loop n lo body = Ret None ->
  forall i, lo <= i < lo + Z.of_nat n -> body i = Ret None.
Proof.
  revert lo. induction n as [| n IH]; intros lo H i Hi; [lia |].
  cbn [for_loop] in H. destruct (body lo) as [[v |] | p] eqn:E; cbn [bind] in H;
    try discriminate.
  destruct (Z.eq_dec i lo) as [-> | Hne]; [done |].
  apply (IH (lo + 1)); [done | lia].
Qed.

Lemma for_loop_Some {R} (n : nat) (lo : Z) (body : Z -> result (option R)) (v : R) :
  for_loop n lo body = Ret (Some v) ->
  exists i, lo <= i < lo + Z.of_nat n /\ body i = Ret (Some v).
Proof.
  revert lo. induction n as [| n IH]; intros lo H; [discriminate |].
  cbn [for_loop] in H. destruct (body lo) as [[w |] | p] eqn:E; cbn [bind] in H;
    try discriminate.
  - injection H as ->. exists lo. split; [lia | done].
  - apply IH in H as (i & Hi & H). exists i. split; [lia | done].
Qed.

(** When [Solved] answers true it has read every cell below [Lines] and
    [Cols] and found it occupied. *)
Lemma Solved_true_cells (b : Board) (line col nc : Z) :
  Solved b = Ret true ->
  0 <= line < Lines b -> Cols b = Ret nc -> 0 <= col < nc ->
  exists v, Get b line col = Ret v /\ v <> 0.
Proof.
  unfold Solved. intros H Hline Hcols Hcol.
  apply bind_Ret in H as (r & Hr & H). unfold for_to in Hr.
  destruct r as [v |].
  - injection H as ->. apply for_loop_Some in Hr as (i & _ & Hr).
    rewrite Hcols in Hr. cbn [bind] in Hr.
    apply for_loop_Some in Hr as (j & _ & Hr).
    destruct (Get b i j) as [cell | p]; cbn [bind] in Hr; [| discriminate].
    destruct (cell =? 0); discriminate.
  - pose proof (for_loop_None _ _ _ Hr line) as Hrow.
    rewrite Hcols in Hrow. cbn [bind] in Hrow. unfold Lines in *.
    specialize (Hrow ltac:(lia)).
    pose proof (for_loop_None _ _ _ Hrow col ltac:(lia)) as Hcell.
    cbn beta in Hcell.
    destruct (Get b line col) as [cell | p]; cbn [bind] in Hcell; [| discriminate].
    exists cell. split; [done |]. destruct (cell =? 0) eqn:E; [discriminate | blia].
Qed.

(** X12.  On a board that [Solved] reports as solved no call of
    [ColorCell] succeeds: every cell it could color is occupied. *)
Theorem Solved_leaves_no_move (b b' : Board) (k line col : Z) :
  Solved b = Ret true ->
  ColorCell b k line col <> Ret (b', None).
Proof.
  intros Hs H. apply ColorCell_success in H
    as (nc & flow & tail & g & _ & _ & _ & _ & Hline & Hcols & Hcol & Hget & _).
  destruct (Solved_true_cells b line col nc Hs Hline Hcols Hcol) as (v & Hv & Hne).
  congruence.
Qed.

Lemma Solved_leaves_no_move_witness :
  ColorCell (mkBoard [[1; 1]; [1; 1]] [[(0, 0); (0, 1); (1, 1); (1, 0)]]) 0 0 0
  <> Ret (mkBoard [[1; 1]; [1; 1]] [[(0, 0); (0, 1); (1, 1); (1, 0)]], None).
Proof.
  apply (Solved_leaves_no_move (mkBoard [[1; 1]; [1; 1]] [[(0, 0); (0, 1); (1, 1); (1, 0)]])).
  vm_compute. reflexivity.
Defined.

(** ** [New]: the header *)

Lemma getSize_error (s : string) (lines cols : Z) (e : error) :
  getSize s = (lines, cols, Some e) -> e = BadSizeFormat /\ lines = 0 /\ cols = 0.
Proof.
  unfold getSize. intros G.
  destruct (strings.Split (strings.Trim s nl) ",") as [| s0 [| s1 [| s2 rest]]];
    try (by injection G as <- <- <-).
  destruct (strconv.Atoi s0) as [l err], (strconv.Atoi s1) as [c err2].
  destruct (is_err err || is_err err2); [by injection G as <- <- <- | discriminate].
Qed.

(** X13.  The only errors [New] returns are those of the header line,
    an unreadable line or a line [getSize] refuses, and with them the
    empty board; no flow line makes [New] return an error. *)
Theorem New_returns_header_errors_only (txt : bufio.Reader) (b : Board) (e : error) :
  New txt = Ret (b, Some e) ->
  b = mkBoard [] []
  /\ ((exists io, snd (fst (bufio.ReadString txt LF)) = Some io /\ e = ErrReadingInput io)
      \/ (snd (getSize (fst (fst (bufio.ReadString txt LF)))) = Some BadSizeFormat
          /\ e = BadSizeFormat)).
Proof.
  intros H. destruct (New_errors txt b e H) as [-> He]. split; [done |].
  unfold New in H.
  destruct (bufio.ReadString txt LF) as [[sizeString err] r]. cbn [fst snd].
  destruct err as [io |]; [injection H as <-; eauto |].
  destruct (getSize sizeString) as [[lines cols] err] eqn:G. cbn [snd].
  destruct err as [e0 |].
  - injection H as <-. apply getSize_error in G as (-> & _). auto.
  - destruct (make_grid lines) as [g0 | p]; cbn [bind] in H; [| discriminate].
    destruct (New_rows (Z.to_nat cols) 0 cols g0) as [g | p]; cbn [bind] in H; [| discriminate].
    destruct (New_loop _ r (mkBoard g []) 0 EmptyString None) as [[[bd e0] | p] |];
      cbn [bind fst] in H; discriminate.
Qed.

Lemma New_returns_header_errors_only_witness :
  mkBoard [] [] = mkBoard [] []
  /\ ((exists io, snd (fst (bufio.ReadString (stream "2;2") LF)) = Some io
                  /\ ErrReadingInput bufio.EOF = ErrReadingInput io)
      \/ (snd (getSize (fst (fst (bufio.ReadString (stream "2;2") LF)))) = Some BadSizeFormat
          /\ ErrReadingInput bufio.EOF = BadSizeFormat)).
Proof.
  apply (New_returns_header_errors_only (stream "2;2") (mkBoard [] [])
           (ErrReadingInput bufio.EOF)).
  reflexivity.
Defined.

Lemma read_until_no_delim (s : string) (delim : ascii) :
  strings.contains_byte s delim = false -> bufio.read_until s delim = (s, None).
Proof.
  induction s as [| a s IH]; cbn; [done |].
  rewrite Ascii.eqb_sym. destruct (Ascii.eqb a delim); cbn; [discriminate |].
  intros H. by rewrite (IH H).
Qed.

(** X14.  A stream that ends before the first newline, the empty stream
    included, makes [New] return the empty board and the reading error
    that wraps what ended the stream. *)
Theorem New_needs_a_header_line (txt : bufio.Reader) :
  strings.contains_byte (bufio.pending txt) LF = false ->
  New txt = Ret (mkBoard [] [], Some (ErrReadingInput (bufio.ending txt))).
Proof.
  intros H. unfold New, bufio.ReadString. by rewrite (read_until_no_delim _ _ H).
Qed.

Lemma New_needs_a_header_line_witness :
  New (stream "3,3") = Ret (mkBoard [] [], Some (ErrReadingInput (bufio.ending (stream "3,3")))).
Proof.
  apply (New_needs_a_header_line (stream "3,3")). reflexivity.
Defined.



(** ** The layout of the grid *)

Lemma insertPoints_range_layout board index points c board' c' e :
  insertPoints_range board index points c = Ret (board', c', e) ->
  map length (grid board') = map length (grid board).
Proof.
  revert board c. induction points as [| point points IH]; intros board c H.
  - by injection H as <- <- <-.
  - cbn [insertPoints_range] in H.
    destruct (strings.Split point ",") as [| s0 [| s1 [| s2 rest]]];
      try (by injection H as <- <- <-).
    destruct (strconv.Atoi s0) as [i err], (strconv.Atoi s1) as [j err2].
    destruct (out_of_board board err err2 i j) as [[|] | p]; cbn [bind] in H;
      [by injection H as <- <- <- | | discriminate].
    destruct (grid_set (grid board) i j index) as [g | p] eqn:G; cbn [bind] in H;
      [| discriminate].
    apply IH in H. cbn [grid] in H. rewrite H. eauto using grid_set_layout.
Qed.

Lemma insertPoints_layout board line index board' e :
  insertPoints board line index = Ret (board', e) ->
  map length (grid board') = map length (grid board).
Proof.
  unfold insertPoints. intros H.
  destruct (String.eqb line EmptyString); [by injection H as <- <- |].
  destruct (negb (length (strings.Split (strings.Trim line nl) " ") =? 2)%nat);
    [by injection H as <- <- |].
  destruct (insertPoints_range board index _ []) as [[[bd c] err] | p] eqn:R;
    cbn [bind] in H; [| discriminate].
  apply insertPoints_range_layout in R.
  destruct err; by injection H as <- <-.
Qed.

Lemma New_loop_layout fuel r board index line err board' e :
  New_loop fuel r board index line err = Some (Ret (board', e)) ->
  map length (grid board') = map length (grid board).
Proof.
  revert r board index line err.
  induction fuel as [| fuel IH]; intros r board index line err H; [discriminate |].
  cbn [New_loop] in H.
  destruct (insertPoints board line index) as [[bd readErr] | p] eqn:I; [| by injection H].
  apply insertPoints_layout in I.
  destruct (is_err err || is_err readErr).
  - injection H as <- <-. done.
  - destruct (bufio.ReadString r LF) as [[line' err'] r']. apply IH in H. congruence.
Qed.

Lemma reachable_layout (b : Board) :
  reachable b ->
  exists n m : nat, map length (grid b) = replicate n n ++ replicate m 0%nat.
Proof.
  induction 1 as [txt b e H | b b' k line col e _ IH H].
  - unfold New in H.
    destruct (bufio.ReadString txt LF) as [[sizeString err] r].
    destruct err; [injection H as <- <-; by exists 0%nat, 0%nat |].
    destruct (getSize sizeString) as [[lines cols] err].
    destruct err; [injection H as <- <-; by exists 0%nat, 0%nat |].
    destruct (make_grid lines) as [g0 | p] eqn:M; cbn [bind] in H; [| discriminate].
    destruct (New_rows (Z.to_nat cols) 0 cols g0) as [g | p] eqn:R;
      cbn [bind] in H; [| discriminate].
    assert (map length g
            = replicate (Z.to_nat cols) (Z.to_nat cols)
              ++ replicate (Z.to_nat lines - Z.to_nat cols) 0%nat) as Hg.
    { rewrite (New_grid_returned lines cols g) by (by rewrite M).
      rewrite map_app.
      change (map length) with (fmap (M := list) (length (A := Z))).
      by rewrite !fmap_replicate, length_replicate. }
    exists (Z.to_nat cols), (Z.to_nat lines - Z.to_nat cols)%nat.
    destruct (New_loop _ r (mkBoard g []) 0 EmptyString None) as [[[bd e0] | p] |] eqn:L;
      cbn [bind fst] in H; try discriminate.
    + injection H as <- <-. apply New_loop_layout in L. by rewrite L.
    + by injection H as <- <-.
  - destruct IH as (n & m & IH). exists n, m.
    by rewrite (ColorCell_layout b b' k line col e H).
Qed.

(** X15.  The grid of every board a program can hold has this layout:
    its first [n] rows have [n] cells each and the rows after them have
    none, for some [n]; the rows do not change length afterwards. *)
Theorem reachable_grid_layout (b : Board) :
  reachable b ->
  exists n m : nat, map length (grid b) = replicate n n ++ replicate m 0%nat.
Proof. apply reachable_layout. Qed.

Lemma reachable_grid_layout_witness :
  exists n m : nat, map length (grid board33) = replicate n n ++ replicate m 0%nat.
Proof.
  apply (reachable_grid_layout board33).
  apply (reachable_New (stream level33) board33 None). reflexivity.
Defined.

(** ** [insertPoints] *)

Lemma matrix_layout (g g' : list (list Z)) (cols : nat) :
  map length g' = map length g ->
  Forall (fun row => length row = cols) g -> Forall (fun row => length row = cols) g'.
Proof.
  intros Hl Hg.
  pose proof (proj2 (Forall_fmap length (fun n => n = cols) g) Hg) as H.
  change (fmap length g) with (map length g) in H. rewrite <- Hl in H.
  exact (proj1 (Forall_fmap length (fun n => n = cols) g') H).
Qed.

(** On a matrix, a point inside passes the bounds check of [insertPoints]
    and its cell is written. *)
Lemma insertPoints_point_in_matrix (board : Board) (cols : nat) (i j v : Z) :
  Forall (fun row => length row = cols) (grid board) ->
  0 <= i < Lines board -> 0 <= j < Z.of_nat cols ->
  out_of_board board None None i j = Ret false
  /\ exists g, grid_set (grid board) i j v = Ret g.
Proof.
  intros Hrect Hi Hj. split.
  - unfold out_of_board, Lines in *. cbn [is_err orb].
    destruct ((i <? 0) || (Z.of_nat (length (grid board)) <? i) || (j <? 0)) eqn:E; [blia |].
    destruct (grid board) as [| row0 g]; [simpl in Hi; lia |].
    apply Forall_cons in Hrect as [<- _].
    rewrite (proj2 (index_Ret (row0 :: g) 0 row0)) by (split; [lia | reflexivity]).
    cbn [bind]. destruct (Z.of_nat (length row0) <? j) eqn:E1; [blia | reflexivity].
  - destruct (Get_matrix board cols i j Hrect Hi Hj) as [v0 Hv0].
    destruct (grid_set_of_Get board i j v0 v Hv0) as (row & _ & ->). eauto.
Qed.

Lemma insertPoints_registers
    (board : Board) (cols : nat) (line t1 t2 a1 b1 a2 b2 : string) (index i1 j1 i2 j2 : Z) :
  Forall (fun row => length row = cols) (grid board) ->
  strings.Split (strings.Trim line nl) " " = [t1; t2] ->
  strings.Split t1 "," = [a1; b1] ->
  strings.Split t2 "," = [a2; b2] ->
  strconv.Atoi a1 = (i1, None) -> strconv.Atoi b1 = (j1, None) ->
  strconv.Atoi a2 = (i2, None) -> strconv.Atoi b2 = (j2, None) ->
  0 <= i1 < Lines board -> 0 <= j1 < Z.of_nat cols ->
  0 <= i2 < Lines board -> 0 <= j2 < Z.of_nat cols ->
  exists board',
    insertPoints board line index = Ret (board', None)
    /\ flows board' = flows board ++ [[(i1, j1); (i2, j2)]]
    /\ Get board' i1 j1 = Ret index
    /\ Get board' i2 j2 = Ret index
    /\ (forall l c, (l, c) <> (i1, j1) -> (l, c) <> (i2, j2) ->
        Get board' l c = Get board l c).
Proof.
  intros Hrect Hsplit Ht1 Ht2 Ha1 Hb1 Ha2 Hb2 Hi1 Hj1 Hi2 Hj2.
  destruct (insertPoints_point_in_matrix board cols i1 j1 index Hrect Hi1 Hj1)
    as (Hin1 & g1 & Hg1).
  pose proof (grid_set_layout _ _ _ _ _ Hg1) as Hl1.
  set (board1 := mkBoard g1 (flows board)).
  assert (Hrect1 : Forall (fun row => length row = cols) (grid board1))
    by (eapply matrix_layout; [exact Hl1 | exact Hrect]).
  assert (Hi2' : 0 <= i2 < Lines board1) by (by rewrite (Lines_layout board board1 Hl1)).
  destruct (insertPoints_point_in_matrix board1 cols i2 j2 index Hrect1 Hi2' Hj2)
    as (Hin2 & g2 & Hg2).
  exists (mkBoard g2 (flows board ++ [[(i1, j1); (i2, j2)]])).
  split; [| split; [done | ]].
  - unfold insertPoints.
    destruct (String.eqb line EmptyString) eqn:E.
    { apply String.eqb_eq in E. subst line. discriminate. }
    rewrite Hsplit. cbn [length Nat.eqb negb insertPoints_range].
    rewrite Ht1, Ha1, Hb1, Hin1. cbn [bind]. rewrite Hg1. cbn [bind].
    fold board1. rewrite Ht2, Ha2, Hb2, Hin2. cbn [bind].
    cbn [grid] in Hg2. rewrite Hg2. reflexivity.
  - destruct board as [g0 fl0]. cbn [grid flows] in *. subst board1. cbn [grid] in *.
    split; [| split].
    + rewrite (Get_after_grid_set g1 g2 fl0 _ i2 j2 _ i1 j1 Hg2).
      destruct ((i1 =? i2) && (j1 =? j2)); [reflexivity |].
      rewrite (Get_after_grid_set g0 g1 fl0 _ i1 j1 _ i1 j1 Hg1).
      by rewrite !Z.eqb_refl.
    + rewrite (Get_after_grid_set g1 g2 fl0 _ i2 j2 _ i2 j2 Hg2).
      by rewrite !Z.eqb_refl.
    + intros l c H1 H2.
      rewrite (Get_after_grid_set g1 g2 fl0 _ i2 j2 _ l c Hg2).
      destruct ((l =? i2) && (c =? j2)) eqn:E2; [exfalso; apply H2; f_equal; blia |].
      rewrite (Get_after_grid_set g0 g1 fl0 fl0 i1 j1 _ l c Hg1).
      destruct ((l =? i1) && (c =? j1)) eqn:E1; [exfalso; apply H1; f_equal; blia |].
      reflexivity.
Qed.

(** X17.  A line that splits into two points, each of two numbers that
    lie inside the matrix, is registered: [insertPoints] returns no error,
    appends the flow of these two points, writes [index] to their two
    cells and leaves every other cell as it was. *)
Theorem insertPoints_registers_flow
    (board : Board) (cols : nat) (line t1 t2 a1 b1 a2 b2 : string) (index i1 j1 i2 j2 : Z) :
  Forall (fun row => length row = cols) (grid board) ->
  strings.Split (strings.Trim line nl) " " = [t1; t2] ->
  strings.Split t1 "," = [a1; b1] ->
  strings.Split t2 "," = [a2; b2] ->
  strconv.Atoi a1 = (i1, None) -> strconv.Atoi b1 = (j1, None) ->
  strconv.Atoi a2 = (i2, None) -> strconv.Atoi b2 = (j2, None) ->
  0 <= i1 < Lines board -> 0 <= j1 < Z.of_nat cols ->
  0 <= i2 < Lines board -> 0 <= j2 < Z.of_nat cols ->
  exists board',
    insertPoints board line index = Ret (board', None)
    /\ flows board' = flows board ++ [[(i1, j1); (i2, j2)]]
    /\ Get board' i1 j1 = Ret index
    /\ Get board' i2 j2 = Ret index
    /\ (forall l c, (l, c) <> (i1, j1) -> (l, c) <> (i2, j2) ->
        Get board' l c = Get board l c).
Proof. apply insertPoints_registers. Qed.

Lemma insertPoints_registers_flow_witness :
  exists board',
    insertPoints empty22 ("0,1 1,1" +:+ nl) 7 = Ret (board', None)
    /\ flows board' = flows empty22 ++ [[(0, 1); (1, 1)]]
    /\ Get board' 0 1 = Ret 7
    /\ Get board' 1 1 = Ret 7
    /\ (forall l c, (l, c) <> (0, 1) -> (l, c) <> (1, 1) ->
        Get board' l c = Get empty22 l c).
Proof.
  apply (insertPoints_registers_flow empty22 2 ("0,1 1,1" +:+ nl) "0,1" "1,1" "0" "1" "1" "1");
    try reflexivity; try (vm_compute; split; [discriminate | reflexivity]).
  simpl. repeat constructor.
Defined.

Lemma insertPoints_range_error board index points c board' c' e :
  insertPoints_range board index points c = Ret (board', c', Some e) -> e = BadLineFormat.
Proof.
  revert board c. induction points as [| point points IH]; intros board c H.
  - discriminate.
  - cbn [insertPoints_range] in H.
    destruct (strings.Split point ",") as [| s0 [| s1 [| s2 rest]]];
      try (by injection H as _ _ <-).
    destruct (strconv.Atoi s0) as [i err], (strconv.Atoi s1) as [j err2].
    destruct (out_of_board board err err2 i j) as [[|] | p]; cbn [bind] in H;
      [by injection H as _ _ <- | | discriminate].
    destruct (grid_set (grid board) i j index) as [g | p]; cbn [bind] in H; [| discriminate].
    eauto.
Qed.

(** X18.  When [insertPoints] returns an error it is the format error of
    flow lines, no flow has been appended and no row has changed length
    (a cell of the line's first point may have been written). *)
Theorem insertPoints_error_appends_nothing
    (board board' : Board) (line : string) (index : Z) (e : error) :
  insertPoints board line index = Ret (board', Some e) ->
  e = BadLineFormat
  /\ flows board' = flows board
  /\ map length (grid board') = map length (grid board).
Proof.
  intros H. pose proof (insertPoints_layout _ _ _ _ _ H) as Hl.
  unfold insertPoints in H.
  destruct (String.eqb line EmptyString); [discriminate |].
  destruct (negb (length (strings.Split (strings.Trim line nl) " ") =? 2)%nat);
    [by injection H as <- <- |].
  destruct (insertPoints_range board index _ []) as [[[bd c] err] | p] eqn:R;
    cbn [bind] in H; [| discriminate].
  destruct err as [e0 |]; [| discriminate]. injection H as <- <-.
  pose proof (insertPoints_range_error _ _ _ _ _ _ _ R) as ->.
  apply insertPoints_range_flows in R as [Hf _]. done.
Qed.

Lemma insertPoints_error_appends_nothing_witness :
  BadLineFormat = BadLineFormat
  /\ flows (mkBoard [[1; 0]; [0; 0]] []) = flows empty22
  /\ map length (grid (mkBoard [[1; 0]; [0; 0]] [])) = map length (grid empty22).
Proof.
  apply (insertPoints_error_appends_nothing empty22 (mkBoard [[1; 0]; [0; 0]] [])
           ("0,0 5,5" +:+ nl) 1 BadLineFormat).
  reflexivity.
Defined.

(** ** The points of the flows lie on the grid *)

(** Whether a point names a cell only depends on the layout of the grid. *)
Lemma on_grid_iff (b : Board) (p : Point) :
  on_grid b p <->
  0 <= fst p /\ 0 <= snd p /\
  exists n : nat, map length (grid b) !! Z.to_nat (fst p) = Some n
                  /\ (Z.to_nat (snd p) < n)%nat.
Proof.
  unfold on_grid, Get. change (map length) with (fmap (M := list) (length (A := Z))).
  split.
  - intros (v & H). apply bind_Ret in H as (row & Hrow & Hcell).
    apply index_Ret in Hrow as [Hi Hrow]. apply index_Ret in Hcell as [Hj Hcell].
    split; [done |]. split; [done |]. exists (length row).
    rewrite list_lookup_fmap, Hrow. split; [done |]. eauto using lookup_lt_Some.
  - intros (Hi & Hj & n & Hn & Hlt).
    rewrite list_lookup_fmap in Hn.
    destruct (grid b !! Z.to_nat (fst p)) as [row |] eqn:Hrow; [| discriminate].
    injection Hn as <-.
    destruct (lookup_lt_is_Some_2 row (Z.to_nat (snd p)) Hlt) as [v Hv].
    exists v. rewrite (proj2 (index_Ret _ _ _) (conj Hi Hrow)). cbn [bind].
    by apply index_Ret.
Qed.

Lemma on_grid_layout (b b' : Board) (p : Point) :
  map length (grid b') = map length (grid b) -> on_grid b p -> on_grid b' p.
Proof. intros Hl. rewrite !on_grid_iff, Hl. done. Qed.

Lemma grid_set_on_grid (g g' : list (list Z)) (fl : list Color) (i j v : Z) :
  grid_set g i j v = Ret g' -> on_grid (mkBoard g' fl) (i, j).
Proof.
  intros H. exists v. cbn [fst snd].
  rewrite (Get_after_grid_set g g' fl fl i j v i j H). by rewrite !Z.eqb_refl.
Qed.

Lemma insertPoints_range_on_grid board index points c board' c' e :
  insertPoints_range board index points c = Ret (board', c', e) ->
  Forall (on_grid board) c -> Forall (on_grid board') c'.
Proof.
  revert board c. induction points as [| point points IH]; intros board c H Hc.
  - by injection H as <- <- <-.
  - cbn [insertPoints_range] in H.
    destruct (strings.Split point ",") as [| s0 [| s1 [| s2 rest]]];
      try (by injection H as <- <- <-).
    destruct (strconv.Atoi s0) as [i err], (strconv.Atoi s1) as [j err2].
    destruct (out_of_board board err err2 i j) as [[|] | p]; cbn [bind] in H;
      [by injection H as <- <- <- | | discriminate].
    destruct (grid_set (grid board) i j index) as [g | p] eqn:G; cbn [bind] in H;
      [| discriminate].
    apply IH in H; [done |]. apply Forall_app. split.
    + eapply Forall_impl; [exact Hc |]. intros p Hp.
      eapply on_grid_layout; [| exact Hp]. cbn [grid]. eauto using grid_set_layout.
    + apply Forall_singleton. eauto using grid_set_on_grid.
Qed.

Lemma flows_on_grid_layout (b b' : Board) (fl : list Color) :
  map length (grid b') = map length (grid b) ->
  Forall (Forall (on_grid b)) fl -> Forall (Forall (on_grid b')) fl.
Proof.
  intros Hl H. eapply Forall_impl; [exact H |]. intros flow Hflow.
  eapply Forall_impl; [exact Hflow |]. eauto using on_grid_layout.
Qed.

Lemma insertPoints_on_grid board line index board' e :
  insertPoints board line index = Ret (board', e) ->
  Forall (Forall (on_grid board)) (flows board) ->
  Forall (Forall (on_grid board')) (flows board').
Proof.
  intros H Hb. pose proof (insertPoints_layout _ _ _ _ _ H) as Hl.
  unfold insertPoints in H.
  destruct (String.eqb line EmptyString); [by injection H as <- <- |].
  destruct (negb (length (strings.Split (strings.Trim line nl) " ") =? 2)%nat);
    [by injection H as <- <- |].
  destruct (insertPoints_range board index _ []) as [[[bd c] err] | p] eqn:R;
    cbn [bind] in H; [| discriminate].
  pose proof (insertPoints_range_on_grid _ _ _ _ _ _ _ R (Forall_nil_2 _)) as Hc.
  pose proof (insertPoints_range_layout _ _ _ _ _ _ _ R) as Hlr.
  apply insertPoints_range_flows in R as [Hf _].
  destruct err as [e0 |]; injection H as <- <-.
  - rewrite Hf. eauto using flows_on_grid_layout.
  - cbn [flows grid] in *. rewrite Hf. apply Forall_app. split.
    + eapply (flows_on_grid_layout board); [exact Hlr |]. exact Hb.
    + apply Forall_singleton. eapply Forall_impl; [exact Hc |].
      intros p Hp. eapply on_grid_layout; [| exact Hp]. done.
Qed.

Lemma New_loop_on_grid fuel r board index line err board' e :
  New_loop fuel r board index line err = Some (Ret (board', e)) ->
  Forall (Forall (on_grid board)) (flows board) ->
  Forall (Forall (on_grid board')) (flows board').
Proof.
  revert r board index line err.
  induction fuel as [| fuel IH]; intros r board index line err H Hb; [discriminate |].
  cbn [New_loop] in H.
  destruct (insertPoints board line index) as [[bd readErr] | p] eqn:I; [| by injection H].
  apply insertPoints_on_grid in I; [| done].
  destruct (is_err err || is_err readErr).
  - by injection H as <- <-.
  - destruct (bufio.ReadString r LF) as [[line' err'] r']. eauto.
Qed.

Lemma New_on_grid txt b e :
  New txt = Ret (b, e) -> Forall (Forall (on_grid b)) (flows b).
Proof.
  unfold New. intros H.
  destruct (bufio.ReadString txt LF) as [[sizeString err] r].
  destruct err; [injection H as <- <-; constructor |].
  destruct (getSize sizeString) as [[lines cols] err].
  destruct err; [injection H as <- <-; constructor |].
  destruct (make_grid lines) as [g0 | p]; cbn [bind] in H; [| discriminate].
  destruct (New_rows (Z.to_nat cols) 0 cols g0) as [g | p]; cbn [bind] in H; [| discriminate].
  destruct (New_loop _ r (mkBoard g []) 0 EmptyString None) as [[[bd e0] | p] |] eqn:L;
    cbn [bind fst] in H; try discriminate.
  - injection H as <- <-. eapply New_loop_on_grid; [exact L | constructor].
  - injection H as <- <-. constructor.
Qed.

Lemma ColorCell_on_grid b k line col b' e :
  ColorCell b k line col = Ret (b', e) ->
  Forall (Forall (on_grid b)) (flows b) ->
  Forall (Forall (on_grid b')) (flows b').
Proof.
  intros H Hb. pose proof (ColorCell_layout _ _ _ _ _ _ H) as Hl.
  destruct e as [e |].
  - by apply ColorCell_error in H as ->.
  - pose proof (ColorCell_written _ _ _ _ _ H) as Hw.
    apply ColorCell_success in H
      as (nc & flow & tail & g & Hk & Hflow & Hlast & _ & _ & _ & _ & _ & _ & Hg & ->).
    cbn [flows grid] in *.
    set (b' := mkBoard g _) in *.
    pose proof (flows_on_grid_layout b b' (flows b) Hl Hb) as Hb'.
    apply Forall_insert; [done |].
    rewrite Forall_lookup in Hb'. specialize (Hb' _ _ Hflow).
    destruct flow as [| t init _] using rev_ind; [discriminate |].
    rewrite last_snoc in Hlast. injection Hlast as ->.
    rewrite removelast_last. apply Forall_app in Hb' as [Hinit Htail].
    apply Forall_app. split; [done |].
    apply Forall_cons. split; [by exists (Int.add k 1) | done].
Qed.

(** X19.  On every board a program can hold, each point of each flow
    names a cell of the grid: [Get] at that point returns. *)
Theorem reachable_flows_on_grid (b : Board) :
  reachable b -> Forall (Forall (on_grid b)) (flows b).
Proof.
  induction 1 as [txt b e H | b b' k line col e _ IH H];
    eauto using New_on_grid, ColorCell_on_grid.
Qed.

Lemma reachable_flows_on_grid_witness : Forall (Forall (on_grid board33)) (flows board33).
Proof.
  apply (reachable_flows_on_grid board33).
  apply (reachable_New (stream level33) board33 None). reflexivity.
Defined.

(** ** [Clone] *)

(** Copying the cells of one row into row [j] of the new grid, of which
    [filled] has been written and [rest] is still to come. *)
Lemma Clone_cells_spec (cells : list Z) (g : list (list Z)) (j : Z) (filled rest : list Z) :
  0 <= j ->
  g !! Z.to_nat j = Some (filled ++ rest) ->
  Clone_cells g j (Z.of_nat (length filled)) cells =
    if (length cells <=? length rest)%nat
    then Ret (<[Z.to_nat j := filled ++ cells ++ drop (length cells) rest]> g)
    else Panic IndexOutOfRange.
Proof.
  intros Hj. revert g filled rest.
  induction cells as [| v cells IH]; intros g filled rest Hrow.
  - cbn. by rewrite list_insert_id.
  - cbn [Clone_cells length]. unfold grid_set.
    rewrite (proj2 (index_Ret g j (filled ++ rest)) (conj Hj Hrow)). cbn [bind].
    unfold set_index. pose proof (lookup_lt_Some _ _ _ Hrow) as Hlt.
    destruct rest as [| r rest].
    + assert (in_bounds (filled ++ []) (Z.of_nat (length filled)) = false) as ->; [| done].
      destruct (in_bounds _ _) eqn:E; [| done].
      apply in_bounds_true in E. rewrite app_nil_r in E. lia.
    + assert (in_bounds (filled ++ r :: rest) (Z.of_nat (length filled)) = true) as ->.
      { apply in_bounds_true. rewrite length_app. simpl. lia. }
      cbn [bind].
      assert (in_bounds g j = true) as -> by (apply in_bounds_true; lia).
      cbn [bind]. rewrite Nat2Z.id.
      rewrite insert_app_r_alt by lia. rewrite Nat.sub_diag. cbn [insert list_insert].
      specialize (IH (<[Z.to_nat j := filled ++ v :: rest]> g) (filled ++ [v]) rest).
      rewrite length_app in IH. cbn [length] in IH.
      replace (Z.of_nat (length filled) + 1) with (Z.of_nat (length filled + 1)) by lia.
      rewrite IH.
      2:{ rewrite list_lookup_insert_eq by done. by rewrite <- app_assoc. }
      cbn [length drop]. change (S (length cells) <=? S (length rest))%nat
        with (length cells <=? length rest)%nat.
      destruct (length cells <=? length rest)%nat; [| done].
      rewrite list_insert_insert_eq, <- app_assoc. reflexivity.
Qed.

Lemma Clone_rows_spec (cols : nat) (rows copied : list (list Z)) :
  Clone_rows (copied ++ replicate (length rows) (replicate cols 0))
             (Z.of_nat (length copied)) rows =
    if forallb (fun row => (length row <=? cols)%nat) rows
    then Ret (copied ++ map (pad_row cols) rows)
    else Panic IndexOutOfRange.
Proof.
  revert copied. induction rows as [| row rows IH]; intros copied.
  - cbn. reflexivity.
  - cbn [Clone_rows length replicate forallb map].
    pose proof (Clone_cells_spec row
                  (copied ++ replicate cols 0 :: replicate (length rows) (replicate cols 0))
                  (Z.of_nat (length copied)) [] (replicate cols 0)) as Hcells.
    cbn [length app] in Hcells. change (Z.of_nat 0) with 0 in Hcells.
    rewrite Hcells; [| lia | by rewrite Nat2Z.id, list_lookup_middle].
    rewrite length_replicate.
    destruct (length row <=? cols)%nat; cbn [bind andb]; [| done].
    rewrite Nat2Z.id, drop_replicate.
    rewrite insert_app_r_alt by lia. rewrite Nat.sub_diag. cbn [insert list_insert].
    fold (pad_row cols row).
    specialize (IH (copied ++ [pad_row cols row])).
    rewrite length_app, <- app_assoc in IH. cbn [length app] in IH.
    replace (Z.of_nat (length copied) + 1) with (Z.of_nat (length copied + 1)) by lia.
    rewrite IH. destruct (forallb _ rows); [| done].
    by rewrite <- app_assoc.
Qed.

Lemma Clone_flows (fl acc : list Color) :
  fold_left (fun fl flow => fl ++ [flow]) fl acc = acc ++ fl.
Proof.
  revert acc. induction fl as [| flow fl IH]; intros acc; cbn.
  - by rewrite app_nil_r.
  - rewrite IH, <- app_assoc. reflexivity.
Qed.

(** What [Clone] returns, for every board. *)
Lemma Clone_value (b : Board) :
  Clone b =
    match grid b with
    | [] => Panic IndexOutOfRange
    | row0 :: _ =>
        if forallb (fun row => (length row <=? length row0)%nat) (grid b)
        then Ret (mkBoard (map (pad_row (length row0)) (grid b)) (flows b))
        else Panic IndexOutOfRange
    end.
Proof.
  unfold Clone, Cols, Lines. destruct (grid b) as [| row0 g] eqn:Hg; [reflexivity |].
  rewrite (proj2 (index_Ret (row0 :: g) 0 row0)) by (split; [lia | reflexivity]).
  cbn [bind]. rewrite !Nat2Z.id.
  pose proof (Clone_rows_spec (length row0) (row0 :: g) []) as Hrows.
  cbn [app] in Hrows. change (Z.of_nat (length [])) with 0 in Hrows. rewrite Hrows.
  destruct (forallb _ (row0 :: g)); cbn [bind]; [| reflexivity].
  by rewrite Clone_flows.
Qed.

(** X20.  [Clone] panics on a board whose grid has no row, and on one
    with a row longer than the first; on every other board it returns a
    board with the same flows whose rows are the rows of the original,
    each followed by zeros up to the length of the first row. *)
Theorem Clone_outcome (b : Board) :
  (grid b = [] -> Clone b = Panic IndexOutOfRange)
  /\ (forall row0 row, head (grid b) = Some row0 -> In row (grid b) ->
      (length row0 < length row)%nat -> Clone b = Panic IndexOutOfRange)
  /\ (forall row0, head (grid b) = Some row0 ->
      Forall (fun row => (length row <= length row0)%nat) (grid b) ->
      Clone b = Ret (mkBoard (map (pad_row (length row0)) (grid b)) (flows b))).
Proof.
  rewrite Clone_value. split; [| split].
  - by intros ->.
  - intros row0 row Hhd Hin Hlt. destruct (grid b) as [| r g]; [done |].
    injection Hhd as ->.
    destruct (forallb _ (row0 :: g)) eqn:E; [| done].
    rewrite forallb_forall in E. specialize (E row Hin). apply Nat.leb_le in E. lia.
  - intros row0 Hhd Hall. destruct (grid b) as [| r g]; [done |].
    injection Hhd as ->.
    destruct (forallb _ (row0 :: g)) eqn:E; [done |].
    exfalso. apply not_true_iff_false in E. apply E. apply forallb_forall.
    intros row Hin. apply Nat.leb_le.
    rewrite Forall_forall in Hall. apply Hall. by apply list_elem_of_In.
Qed.

Lemma Clone_outcome_witness :
  Clone (mkBoard [] []) = Panic IndexOutOfRange
  /\ Clone (mkBoard [[1]; [1; 2]] []) = Panic IndexOutOfRange
  /\ Clone (mkBoard [[1; 2]; []] [[(0, 0); (0, 1)]])
     = Ret (mkBoard [[1; 2]; [0; 0]] [[(0, 0); (0, 1)]]).
Proof.
  split; [| split].
  - apply (proj1 (Clone_outcome (mkBoard [] []))). reflexivity.
  - apply (proj1 (proj2 (Clone_outcome (mkBoard [[1]; [1; 2]] []))) [1] [1; 2]).
    + reflexivity.
    + simpl. auto.
    + simpl. lia.
  - apply (proj2 (proj2 (Clone_outcome (mkBoard [[1; 2]; []] [[(0, 0); (0, 1)]]))) [1; 2]).
    + reflexivity.
    + simpl. repeat constructor.
Defined.

Lemma pad_row_full (cols : nat) (row : list Z) : length row = cols -> pad_row cols row = row.
Proof. intros <-. unfold pad_row. rewrite Nat.sub_diag. apply app_nil_r. Qed.

(** X21.  The clone of a board whose grid is a matrix with at least one
    row is equal to the board: same cells, same flows. *)
Theorem Clone_of_matrix (b : Board) :
  grid b <> [] -> rectangular (grid b) -> Clone b = Ret b.
Proof.
  intros Hne [cols Hrect]. rewrite Clone_value.
  destruct b as [g fl]. cbn [grid flows] in *.
  destruct g as [| row0 g]; [done |].
  pose proof Hrect as Hrect'. apply Forall_cons in Hrect' as [H0 _].
  assert (forallb (fun row => (length row <=? length row0)%nat) (row0 :: g) = true) as ->.
  { apply forallb_forall. intros row Hin. apply Nat.leb_le.
    rewrite Forall_forall in Hrect. rewrite (Hrect row), H0; [lia |].
    by apply list_elem_of_In. }
  do 2 f_equal. rewrite H0.
  rewrite <- (map_id (row0 :: g)) at 2. apply map_ext_in.
  intros row Hin. apply pad_row_full.
  rewrite Forall_forall in Hrect. apply Hrect. by apply list_elem_of_In.
Qed.

Lemma Clone_of_matrix_witness : Clone board33 = Ret board33.
Proof.
  apply (Clone_of_matrix board33); [discriminate |].
  exists 3%nat. simpl. repeat constructor.
Defined.

Lemma pad_row_length (cols : nat) (row : list Z) :
  (length row <= cols)%nat -> length (pad_row cols row) = cols.
Proof. intros H. unfold pad_row. rewrite length_app, length_replicate. lia. Qed.

(** X22.  Whenever [Clone] returns, the new board has a grid that is a
    matrix, with as many lines and columns as the original, every cell of
    the original at its place, and the same flows. *)
Theorem Clone_result (b b' : Board) :
  Clone b = Ret b' ->
  rectangular (grid b')
  /\ Lines b' = Lines b
  /\ Cols b' = Cols b
  /\ flows b' = flows b
  /\ (forall l c v, Get b l c = Ret v -> Get b' l c = Ret v).
Proof.
  rewrite Clone_value. destruct (grid b) as [| row0 g] eqn:Hg; [discriminate |].
  destruct (forallb _ (row0 :: g)) eqn:Hall; [| discriminate].
  intros [= <-].
  change (pad_row (length row0) row0 :: map (pad_row (length row0)) g)
    with (map (pad_row (length row0)) (row0 :: g)).
  cbn [grid flows]. rewrite forallb_forall in Hall.
  split; [| split; [| split; [| split]]].
  - exists (length row0).
    apply (proj2 (Forall_fmap (pad_row (length row0)) (fun r => length r = length row0)
                   (row0 :: g))).
    apply Forall_forall. intros row Hin. cbn.
    apply pad_row_length, Nat.leb_le, Hall. by apply list_elem_of_In.
  - unfold Lines. cbn [grid]. by rewrite length_map, Hg.
  - unfold Cols. cbn [grid map]. rewrite Hg.
    rewrite !(proj2 (index_Ret (_ :: _) 0 _)) by (split; [lia | reflexivity]).
    cbn [bind]. rewrite pad_row_full; done.
  - done.
  - intros l c v. unfold Get. cbn [grid]. rewrite Hg. intros H.
    apply bind_Ret in H as (row & Hrow & Hcell).
    apply index_Ret in Hrow as [Hl Hrow]. apply index_Ret in Hcell as [Hc Hcell].
    rewrite (proj2 (index_Ret (map (pad_row (length row0)) (row0 :: g)) l
                      (pad_row (length row0) row))).
    2:{ split; [done |].
        change (map (pad_row (length row0))) with (fmap (M := list) (pad_row (length row0))).
        by rewrite list_lookup_fmap, Hrow. }
    cbn [bind]. apply index_Ret. split; [done |].
    unfold pad_row. by apply lookup_app_l_Some.
Qed.

Lemma Clone_result_witness :
  rectangular (grid (mkBoard [[1; 2]; [0; 0]] []))
  /\ Lines (mkBoard [[1; 2]; [0; 0]] []) = Lines (mkBoard [[1; 2]; []] [])
  /\ Cols (mkBoard [[1; 2]; [0; 0]] []) = Cols (mkBoard [[1; 2]; []] [])
  /\ flows (mkBoard [[1; 2]; [0; 0]] []) = flows (mkBoard [[1; 2]; []] [])
  /\ (forall l c v, Get (mkBoard [[1; 2]; []] []) l c = Ret v ->
      Get (mkBoard [[1; 2]; [0; 0]] []) l c = Ret v).
Proof.
  apply (Clone_result (mkBoard [[1; 2]; []] []) (mkBoard [[1; 2]; [0; 0]] [])).
  reflexivity.
Defined.

(** X23.  Every board a program can hold, if its grid has a row, can be
    cloned, and the grid of the clone is a matrix (also when the grid of
    the board is not). *)
Theorem Clone_of_reachable (b : Board) :
  reachable b -> grid b <> [] ->
  exists b', Clone b = Ret b' /\ rectangular (grid b').
Proof.
  intros Hb Hne. apply reachable_layout in Hb as (n & m & Hlay).
  assert (exists b', Clone b = Ret b') as [b' Hc].
  { rewrite Clone_value. destruct (grid b) as [| row0 g]; [done |].
    assert (forallb (fun row => (length row <=? length row0)%nat) (row0 :: g) = true) as ->;
      [| eauto].
    apply forallb_forall. intros row Hin. apply Nat.leb_le.
    apply (in_map length) in Hin. rewrite Hlay in Hin.
    cbn [map] in Hlay. destruct n as [| n].
    - cbn in Hin. apply list_elem_of_In, elem_of_replicate in Hin as [-> _]. lia.
    - cbn in Hlay. injection Hlay as -> _.
      apply in_app_or in Hin as [Hin | Hin];
        apply list_elem_of_In, elem_of_replicate in Hin as [-> _]; lia. }
  exists b'. split; [done |]. by apply Clone_result in Hc as (? & _).
Qed.

Lemma Clone_of_reachable_witness :
  exists b', Clone board33 = Ret b' /\ rectangular (grid b').
Proof.
  apply (Clone_of_reachable board33).
  - apply (reachable_New (stream level33) board33 None). reflexivity.
  - discriminate.
Defined.

(** X24.  The board [New] returns together with an error cannot be
    cloned: its grid has no row and [Clone] panics. *)
Theorem Clone_after_failed_New (txt : bufio.Reader) (b : Board) (e : error) :
  New txt = Ret (b, Some e) -> Clone b = Panic IndexOutOfRange.
Proof.
  intros H. apply New_errors in H as [-> _]. reflexivity.
Qed.

Lemma Clone_after_failed_New_witness : Clone (mkBoard [] []) = Panic IndexOutOfRange.
Proof.
  apply (Clone_after_failed_New (stream "3,3") (mkBoard [] []) (ErrReadingInput bufio.EOF)).
  reflexivity.
Defined.

(** ** Numbers in decimal: [Itoa] and [strconv.Atoi] *)

Lemma digits_of_uint_acc (d : Decimal.uint) (acc : positive) :
  strconv.digits (NilEmpty.string_of_uint d) (Z.pos acc)
  = Some (Z.pos (Pos.of_uint_acc d acc)).
Proof.
  revert acc. induction d; intros acc; cbn [NilEmpty.string_of_uint strconv.digits Pos.of_uint_acc];
    [reflexivity | ..];
    (change (strconv.digit _) with (Some 0) || change (strconv.digit _) with (Some 1)
     || change (strconv.digit _) with (Some 2) || change (strconv.digit _) with (Some 3)
     || change (strconv.digit _) with (Some 4) || change (strconv.digit _) with (Some 5)
     || change (strconv.digit _) with (Some 6) || change (strconv.digit _) with (Some 7)
     || change (strconv.digit _) with (Some 8) || change (strconv.digit _) with (Some 9));
    cbv iota beta;
    match goal with
    | |- strconv.digits _ ?z = Some (Z.pos (Pos.of_uint_acc _ ?q)) =>
        replace z with (Z.pos q) by lia
    end; apply IHd.
Qed.

Lemma digits_of_uint (d : Decimal.uint) :
  strconv.digits (NilEmpty.string_of_uint d) 0 = Some (Z.of_N (Pos.of_uint d)).
Proof.
  induction d; cbn [NilEmpty.string_of_uint strconv.digits Pos.of_uint];
    [reflexivity | exact IHd | ..];
    (change (strconv.digit _) with (Some 1) || change (strconv.digit _) with (Some 2)
     || change (strconv.digit _) with (Some 3) || change (strconv.digit _) with (Some 4)
     || change (strconv.digit _) with (Some 5) || change (strconv.digit _) with (Some 6)
     || change (strconv.digit _) with (Some 7) || change (strconv.digit _) with (Some 8)
     || change (strconv.digit _) with (Some 9));
    cbv iota beta;
    match goal with
    | |- strconv.digits _ (0 * 10 + ?k) = _ => change (0 * 10 + k) with k
    end; rewrite digits_of_uint_acc; reflexivity.
Qed.

(** The decimal text of a positive number: not empty, it starts with a
    digit, and [digits] reads the number back. *)
Lemma string_of_pos (p : positive) :
  exists a s,
    NilZero.string_of_uint (Pos.to_uint p) = String a s
    /\ Ascii.eqb a "+" = false /\ Ascii.eqb a "-" = false
    /\ strconv.digits (String a s) 0 = Some (Z.pos p).
Proof.
  pose proof (DecimalPos.Unsigned.to_uint_nonnil p) as Hnil.
  pose proof (digits_of_uint (Pos.to_uint p)) as Hd.
  rewrite DecimalPos.Unsigned.of_to in Hd. cbn [Z.of_N] in Hd.
  destruct (Pos.to_uint p) eqn:E; [done | ..];
    cbn [NilZero.string_of_uint NilEmpty.string_of_uint] in *;
    eexists _, _; (split; [reflexivity |]); (split; [reflexivity |]);
    (split; [reflexivity | exact Hd]).
Qed.

(** [strconv.Atoi] reads back what [Itoa] writes, for every [int]. *)
Lemma Atoi_Itoa (z : Z) : Int.in_range z -> strconv.Atoi (Itoa z) = (z, None).
Proof.
  unfold Int.in_range, Int.min_int, Int.max_int. intros Hz.
  destruct z as [| p | p]; [reflexivity | |].
  - unfold Itoa. cbn [Z.to_int NilZero.string_of_int].
    destruct (string_of_pos p) as (a & s & -> & Ha & Hb & Hd).
    unfold strconv.Atoi. rewrite Ha, Hb. cbn [orb]. rewrite Hd. cbn [negb andb].
    unfold Int.max_int, Int.min_int.
    destruct (2 ^ 63 - 1 <? Z.pos p) eqn:E; [blia | reflexivity].
  - unfold Itoa. cbn [Z.to_int NilZero.string_of_int].
    destruct (string_of_pos p) as (a & s & -> & Ha & Hb & Hd).
    unfold strconv.Atoi. cbn [Ascii.eqb Bool.eqb andb orb]. rewrite Hd. cbn [negb andb].
    unfold Int.max_int, Int.min_int.
    destruct (- - 2 ^ 63 <? Z.pos p) eqn:E; [blia | reflexivity].
Qed.

(** ** Splitting and trimming text without separators *)

Lemma contains_byte_app (s1 s2 : string) (a : ascii) :
  strings.contains_byte (s1 +:+ s2) a
  = strings.contains_byte s1 a || strings.contains_byte s2 a.
Proof.
  induction s1 as [| b s1 IH]; simpl; [reflexivity |].
  rewrite IH. apply orb_assoc.
Qed.

Lemma uint_no_byte (d : Decimal.uint) (c : ascii) :
  strconv.digit c = None -> strings.contains_byte (NilEmpty.string_of_uint d) c = false.
Proof.
  intros Hc. induction d; cbn [NilEmpty.string_of_uint strings.contains_byte];
    [reflexivity | ..]; rewrite IHd, orb_false_r;
    match goal with |- Ascii.eqb c ?k = false =>
      destruct (Ascii.eqb_spec c k) as [-> |]; [discriminate Hc | reflexivity] end.
Qed.

(** The text of a number holds digits and at most a minus sign. *)
Lemma Itoa_no_byte (z : Z) (c : ascii) :
  strconv.digit c = None -> Ascii.eqb c "-" = false ->
  strings.contains_byte (Itoa z) c = false.
Proof.
  intros Hc Hm. unfold Itoa.
  assert (forall d, strings.contains_byte (NilZero.string_of_uint d) c = false) as Hu.
  { intros d. pose proof (uint_no_byte d c Hc) as H.
    destruct d; try exact H. cbn.
    destruct (Ascii.eqb_spec c "0") as [-> |]; [discriminate Hc | reflexivity]. }
  destruct (Z.to_int z); cbn [NilZero.string_of_int strings.contains_byte];
    [apply Hu | by rewrite Hm, Hu].
Qed.

Lemma Split_no_sep (s : string) (sep : ascii) :
  strings.contains_byte s sep = false -> strings.Split s sep = [s].
Proof.
  induction s as [| a s IH]; cbn; [reflexivity |].
  rewrite Ascii.eqb_sym. destruct (Ascii.eqb a sep); cbn; [discriminate |].
  intros H. by rewrite (IH H).
Qed.

Lemma Split_at_sep (s1 s2 : string) (sep : ascii) :
  strings.contains_byte s1 sep = false ->
  strings.Split (s1 +:+ String sep s2) sep = s1 :: strings.Split s2 sep.
Proof.
  induction s1 as [| a s1 IH]; simpl.
  - by rewrite Ascii.eqb_refl.
  - rewrite (Ascii.eqb_sym sep a). destruct (Ascii.eqb a sep); simpl; [discriminate |].
    intros H. by rewrite (IH H).
Qed.

Lemma TrimRight_no_cut (s : string) (a : ascii) :
  strings.contains_byte s a = false ->
  strings.TrimRight (s +:+ String a EmptyString) (String a EmptyString) = s.
Proof.
  induction s as [| b s IH]; simpl.
  - by rewrite Ascii.eqb_refl.
  - rewrite (Ascii.eqb_sym a b). destruct (Ascii.eqb b a) eqn:E; simpl; [discriminate |].
    intros H. rewrite (IH H). destruct s; by rewrite ?E.
Qed.

(** A line without a newline inside, once its newline is trimmed. *)
Lemma Trim_end (s : string) (a : ascii) :
  strings.contains_byte s a = false ->
  strings.Trim (s +:+ String a EmptyString) (String a EmptyString) = s.
Proof.
  intros H. unfold strings.Trim.
  destruct s as [| b s]; [simpl; by rewrite Ascii.eqb_refl |].
  simpl in H. apply orb_false_iff in H as [Hb Hs].
  assert (strings.TrimLeft (String b s +:+ String a EmptyString) (String a EmptyString)
          = String b s +:+ String a EmptyString) as ->.
  { simpl. by rewrite (Ascii.eqb_sym b a), Hb. }
  apply (TrimRight_no_cut (String b s) a). simpl. by rewrite Hb, Hs.
Qed.

Lemma Trim_line_end (s : string) :
  strings.contains_byte s LF = false -> strings.Trim (s +:+ nl) nl = s.
Proof. apply Trim_end. Qed.


Lemma append_assoc (s1 s2 s3 : string) : (s1 +:+ s2) +:+ s3 = s1 +:+ (s2 +:+ s3).
Proof.
  induction s1 as [| a s1 IH]; [reflexivity |].
  change (String a ((s1 +:+ s2) +:+ s3) = String a (s1 +:+ (s2 +:+ s3))).
  by rewrite IH.
Qed.

(** ** [getSize] reads back a written header *)

Lemma getSize_header (lines cols : Z) :
  Int.in_range lines -> Int.in_range cols ->
  getSize (header_line lines cols) = (lines, cols, None).
Proof.
  intros Hl Hc. unfold getSize, header_line.
  rewrite <- !append_assoc, Trim_line_end.
  2:{ rewrite !contains_byte_app, !Itoa_no_byte by reflexivity. reflexivity. }
  rewrite append_assoc. change ("," +:+ Itoa cols) with (String "," (Itoa cols)).
  rewrite Split_at_sep by (by apply Itoa_no_byte).
  rewrite Split_no_sep by (by apply Itoa_no_byte).
  by rewrite !Atoi_Itoa.
Qed.

(** X25.  For all [int]s [lines] and [cols], [getSize] reads the header
    line that holds them in decimal and returns both with no error. *)
Theorem getSize_header_line (lines cols : Z) :
  Int.in_range lines -> Int.in_range cols ->
  getSize (header_line lines cols) = (lines, cols, None).
Proof. apply getSize_header. Qed.

Lemma getSize_header_line_witness : getSize (header_line 12 (-3)) = (12, -3, None).
Proof.
  apply (getSize_header_line 12 (-3)); vm_compute; split; discriminate.
Defined.

(** ** [New] reads back a written level *)





(** Beyond that limit [New] does not return: the [make] of the rows
    panics, whatever the number of columns. *)
Example New_too_many_lines :
  New (stream ("4611686018427387904,0" +:+ nl)) = Panic MakeSliceOutOfRange
  /\ New (stream ("9223372036854775807,0" +:+ nl)) = Panic MakeSliceOutOfRange.
Proof. split; vm_compute; reflexivity. Qed.

















Example level_text_22 : level_text 2 2 [((0, 0), (1, 1)); ((0, 1), (1, 0))] = level22.
Proof. reflexivity. Qed.

(** ** The cells of a level that [New] has read *)











(** ** [ColorsString] *)

Example ColorsString_board22 :
  ColorsString board22
  = "(0,0)->[???]->(1,1)" +:+ nl +:+ "(0,1)->[???]->(1,0)" +:+ nl.
Proof. reflexivity. Qed.

Example ColorsString_adjacent :
  ColorsString (mkBoard [[1; 1]] [[(0, 0); (0, 1)]]) = "(0,0)->(0,1)" +:+ nl.
Proof. reflexivity. Qed.

Lemma point_no_question (point : Point) :
  strings.contains_byte ("(" +:+ Itoa (fst point) +:+ "," +:+ Itoa (snd point) +:+ ")") "?"
  = false.
Proof.
  rewrite !contains_byte_app, !Itoa_no_byte by reflexivity. reflexivity.
Qed.

(** The question marks of one flow: there are some exactly when the last
    position is among those still to print and the flow is not adjacent. *)
Lemma ColorsString_points_question (c : Color) (points : list Point) :
  forall (i : Z) (s : string),
    strings.contains_byte (ColorsString_points c i points s) "?"
    = strings.contains_byte s "?"
      || (negb (AreAllAjacent c)
          && ((i <=? Z.of_nat (length c) - 1)
              && (Z.of_nat (length c) - 1 <? i + Z.of_nat (length points)))).
Proof.
  induction points as [| point points IH]; intros i s.
  - cbn [ColorsString_points length].
    destruct ((i <=? Z.of_nat (length c) - 1) && (Z.of_nat (length c) - 1 <? i + Z.of_nat 0)) eqn:E;
      [blia |]. by rewrite andb_false_r, orb_false_r.
  - cbn [ColorsString_points]. cbv zeta. rewrite IH. clear IH.
    pose proof (point_no_question point) as Hp.
    set (txt := "(" +:+ Itoa (fst point) +:+ "," +:+ Itoa (snd point) +:+ ")") in *.
    replace (i + 1 + Z.of_nat (length points)) with (i + Z.of_nat (length (point :: points)))
      by (cbn [length]; lia).
    set (L := Z.of_nat (length c) - 1). set (hi := i + Z.of_nat (length (point :: points))).
    assert (Hhi : i < hi) by (subst hi; cbn [length]; lia).
    destruct (i =? L) eqn:Ei; cbn [andb negb].
    + apply Z.eqb_eq in Ei. subst i.
      assert ((L + 1 <=? L) = false) as -> by (apply Z.leb_gt; lia).
      assert ((L <=? L) = true) as -> by (apply Z.leb_le; lia).
      assert ((L <? hi) = true) as -> by (apply Z.ltb_lt; lia).
      cbn [andb]. rewrite andb_false_r, orb_false_r, andb_true_r.
      destruct (AreAllAjacent c); cbn [negb]; rewrite !contains_byte_app, Hp.
      * by rewrite !orb_false_r.
      * change (strings.contains_byte "[???]->" "?") with true.
        by rewrite !orb_true_r.
    + rewrite !contains_byte_app, Hp.
      change (strings.contains_byte "->" "?") with false.
      rewrite !orb_false_r. f_equal. f_equal.
      apply Z.eqb_neq in Ei.
      destruct (i <=? L) eqn:E1, (i + 1 <=? L) eqn:E2; try reflexivity; blia.
Qed.

Lemma ColorsString_flows_question (fl : list Color) :
  forall s,
    strings.contains_byte (ColorsString_flows fl s) "?"
    = strings.contains_byte s "?" || existsb (fun c => negb (AreAllAjacent c)) fl.
Proof.
  induction fl as [| c fl IH]; intros s; cbn [ColorsString_flows existsb].
  - by rewrite orb_false_r.
  - rewrite IH, contains_byte_app, ColorsString_points_question.
    cbn [strings.contains_byte nl]. change (Ascii.eqb "?" LF) with false.
    rewrite !orb_false_r, <- orb_assoc. f_equal. f_equal.
    destruct c as [| p c]; [reflexivity |].
    assert ((0 <=? Z.of_nat (length (p :: c)) - 1)
            && (Z.of_nat (length (p :: c)) - 1 <? 0 + Z.of_nat (length (p :: c))) = true) as ->.
    { cbn [length]. apply andb_true_iff. split; [apply Z.leb_le | apply Z.ltb_lt]; lia. }
    by rewrite andb_true_r.
Qed.

(** X29.  The text of [ColorsString] holds a question mark, that of the
    marker [[???]->], exactly when some flow of the board is not
    adjacent from end to end. *)
Theorem ColorsString_marks_broken_flows (b : Board) :
  strings.contains_byte (ColorsString b) "?" = true
  <-> Exists (fun c => AreAllAjacent c = false) (flows b).
Proof.
  unfold ColorsString. rewrite ColorsString_flows_question. cbn [strings.contains_byte orb].
  rewrite existsb_exists, Exists_exists. split.
  - intros (c & Hin & Hc). exists c. split; [by apply list_elem_of_In |].
    by apply negb_true_iff.
  - intros (c & Hin & Hc). exists c. split; [by apply list_elem_of_In |].
    by apply negb_true_iff.
Qed.

Lemma Split_not_nil (s : string) (a : ascii) : strings.Split s a <> [].
Proof.
  destruct s as [| b s]; [done |]. cbn [strings.Split].
  destruct (Ascii.eqb b a); [done |]. by destruct (strings.Split s a).
Qed.

Lemma Split_app_length (s1 s2 : string) (a : ascii) :
  (length (strings.Split (s1 +:+ s2) a) + 1
   = length (strings.Split s1 a) + length (strings.Split s2 a))%nat.
Proof.
  induction s1 as [| b s1 IH].
  - change (EmptyString +:+ s2) with s2. cbn [strings.Split length]. lia.
  - change (String b s1 +:+ s2) with (String b (s1 +:+ s2)). cbn [strings.Split].
    destruct (Ascii.eqb b a); cbn [length]; [lia |].
    pose proof (Split_not_nil (s1 +:+ s2) a). pose proof (Split_not_nil s1 a).
    destruct (strings.Split (s1 +:+ s2) a), (strings.Split s1 a); try done;
      cbn [length] in *; lia.
Qed.

Lemma Split_append_no_sep (s t : string) (a : ascii) :
  strings.contains_byte t a = false ->
  length (strings.Split (s +:+ t) a) = length (strings.Split s a).
Proof.
  intros H. pose proof (Split_app_length s t a) as Hl.
  rewrite (Split_no_sep t a H) in Hl. cbn [length] in Hl. lia.
Qed.

Lemma ColorsString_points_lines (c : Color) (points : list Point) :
  forall (i : Z) (s : string),
    length (strings.Split (ColorsString_points c i points s) LF)
    = length (strings.Split s LF).
Proof.
  induction points as [| point points IH]; intros i s; [reflexivity |].
  cbn [ColorsString_points]. cbv zeta. rewrite IH. clear IH.
  assert (strings.contains_byte
            ("(" +:+ Itoa (fst point) +:+ "," +:+ Itoa (snd point) +:+ ")") LF = false) as Hp.
  { rewrite !contains_byte_app, !Itoa_no_byte by reflexivity. reflexivity. }
  set (txt := "(" +:+ Itoa (fst point) +:+ "," +:+ Itoa (snd point) +:+ ")") in *.
  destruct (i =? Z.of_nat (length c) - 1); cbn [andb negb];
    [destruct (AreAllAjacent c); cbn [negb] |];
    rewrite ?Split_append_no_sep; done.
Qed.

(** Splitting at a separator splits the text before it and the text
    after it. *)
Lemma Split_app_sep (s1 s2 : string) (a : ascii) :
  strings.Split (s1 +:+ String a s2) a = strings.Split s1 a ++ strings.Split s2 a.
Proof.
  induction s1 as [| b s1 IH].
  - change (EmptyString +:+ String a s2) with (String a s2).
    cbn [strings.Split]. by rewrite Ascii.eqb_refl.
  - change (String b s1 +:+ String a s2) with (String b (s1 +:+ String a s2)).
    cbn [strings.Split]. rewrite IH.
    destruct (Ascii.eqb b a); [reflexivity |].
    pose proof (Split_not_nil s1 a).
    by destruct (strings.Split s1 a).
Qed.

Lemma ColorsString_flows_last (fl : list Color) :
  forall s : string,
    last (strings.Split s LF) = Some EmptyString ->
    last (strings.Split (ColorsString_flows fl s) LF) = Some EmptyString.
Proof.
  induction fl as [| c fl IH]; intros s Hs; cbn [ColorsString_flows]; [done |].
  apply IH. unfold nl. rewrite Split_app_sep. cbn [strings.Split]. apply last_snoc.
Qed.

(** X30.  [ColorsString] writes one line for every flow of the board:
    its text splits at the newlines into as many pieces as there are
    flows, and an empty piece after the last newline. *)
Theorem ColorsString_line_per_flow (b : Board) :
  length (strings.Split (ColorsString b) LF) = S (length (flows b))
  /\ last (strings.Split (ColorsString b) LF) = Some EmptyString.
Proof.
  unfold ColorsString. split; [| by apply ColorsString_flows_last].
  assert (forall fl s, length (strings.Split (ColorsString_flows fl s) LF)
                       = (length (strings.Split s LF) + length fl)%nat) as H.
  { induction fl as [| c fl IH]; intros s; cbn [ColorsString_flows length]; [lia |].
    rewrite IH. pose proof (Split_app_length (ColorsString_points c 0 c s) nl LF) as Hl.
    rewrite ColorsString_points_lines in Hl. cbn in Hl. lia. }
  rewrite H. reflexivity.
Qed.
